(** * OpenSSH certificate support of ssh2: sniffer, codec, validator, adapter

    A shallow embedding of [lib/protocol/sshCertificate.js] and of the
    certificate key adapter built on it, with the properties of the
    natural-language specification stated over the embedding.

    Conventions.
    - A Node [Buffer] is a [list byte]; [buf.slice] yields a view with its
      own length, so a slice is modelled by the list of the bytes it shows.
    - A JavaScript number is a [num]: an exact integer or [NaN].  Every
      integer that occurs is below 2^53, where double arithmetic is exact.
    - A JavaScript string is the list of its UTF-16 code units.
    - A function body that can throw lives in [completion]; [try]/[catch]
      is [try_catch]. *)

From Stdlib Require Import ZArith List String Ascii Bool Lia.
From Stdlib.Strings Require Import Byte.
From stdpp Require Import base option list strings gmap.

Local Open Scope Z_scope.

(** ** JavaScript values used by the module *)

Abbreviation bytes := (list byte).

(** UTF-16 code units. *)
Abbreviation jstring := (list Z).

(** A string literal of the source, as a JavaScript string. *)
Definition js (s : string) : jstring :=
  List.map (fun a => Z.of_N (N_of_ascii a)) (list_ascii_of_string s).

(** The double quote character, written inside template literals. *)
Definition dquote : jstring := [34].

Inductive num : Type :=
| Int (z : Z)
| NaN.

Definition num_add (a b : num) : num :=
  match a, b with
  | Int x, Int y => Int (x + y)
  | _, _ => NaN
  end.

Definition num_mul (a b : num) : num :=
  match a, b with
  | Int x, Int y => Int (x * y)
  | _, _ => NaN
  end.

(** [a < b] and [a > b]; any comparison with [NaN] is false. *)
Definition num_lt (a b : num) : bool :=
  match a, b with
  | Int x, Int y => x <? y
  | _, _ => false
  end.

Definition num_gt (a b : num) : bool := num_lt b a.

Notation "a +' b" := (num_add a b) (at level 50, left associativity).

(** An [Error] object: its [name] and its [message]. *)
Record JsError : Type := mkJsError {
  err_name : jstring;
  err_message : jstring
}.

(** [new Error(message)]. *)
Definition Error (message : jstring) : JsError :=
  {| err_name := js "Error"; err_message := message |}.

(** The JavaScript values that cross the module's interfaces. *)
Inductive value : Type :=
| VBuffer (b : bytes)
| VString (s : jstring)
| VBool (b : bool)
| VError (e : JsError)
| VNull
| VUndefined.

Module Buffer.

Definition isBuffer (v : value) : bool :=
  match v with
  | VBuffer _ => true
  | _ => false
  end.

Definition length (buf : bytes) : num := Int (Z.of_nat (List.length buf)).

(** [buf[i]] as a number operand: a byte, or [undefined] (which any
    arithmetic turns into [NaN]) outside [0 .. length-1]. *)
Definition index (buf : bytes) (i : num) : num :=
  match i with
  | Int z =>
      if z <? 0 then NaN
      else match buf !! Z.to_nat z with
           | Some b => Int (Z.of_N (Byte.to_N b))
           | None => NaN
           end
  | NaN => NaN
  end.

(** Node's [adjustOffset]: [NaN] and 0 give 0, a negative offset counts
    from the end, everything is clamped to [0 .. length]. *)
Definition adjustOffset (offset : num) (length : Z) : Z :=
  match offset with
  | NaN => 0
  | Int o =>
      if o =? 0 then 0
      else if o <? 0 then (if 0 <? o + length then o + length else 0)
      else if o <? length then o
      else length
  end.

(** [buf.slice(start, end)]. *)
Definition slice (buf : bytes) (start end_ : num) : bytes :=
  let srcLength := Z.of_nat (List.length buf) in
  let s := adjustOffset start srcLength in
  let e := adjustOffset end_ srcLength in
  let newLength := if s <? e then e - s else 0 in
  take (Z.to_nat newLength) (drop (Z.to_nat s) buf).

End Buffer.

(** Modelled from the spec: [readUInt32BE] of [./utils.js] is not among the
    sources.  The specification fixes it as the reader of an unsigned 32-bit
    big-endian integer; this is the usual four-byte arithmetic rendering,
    which indexes the buffer and therefore yields [NaN] as soon as one of
    the four bytes lies outside the buffer. *)
Definition readUInt32BE (buf : bytes) (offset : num) : num :=
  num_mul (Buffer.index buf offset) (Int 16777216)
  +' num_mul (Buffer.index buf (offset +' Int 1)) (Int 65536)
  +' num_mul (Buffer.index buf (offset +' Int 2)) (Int 256)
  +' Buffer.index buf (offset +' Int 3).

(** ** Completions: normal return, thrown error, or loop budget exhausted *)

Inductive completion (A : Type) : Type :=
| Normal (a : A)
| Throw (e : JsError)
| Timeout.

Arguments Normal {A} a.
Arguments Throw {A} e.
Arguments Timeout {A}.

(** [try { body } catch (err) { handler(err) }]. *)
Definition try_catch {A : Type} (body : completion A)
    (handler : JsError -> completion A) : completion A :=
  match body with
  | Throw e => handler e
  | other => other
  end.

(** ** Strings *)

Definition jstring_eqb (a b : jstring) : bool := bool_decide (a = b).

(** [s.startsWith(prefix)]. *)
Fixpoint startsWith (s prefix : jstring) : bool :=
  match prefix, s with
  | [], _ => true
  | p :: prefix', c :: s' => (c =? p) && startsWith s' prefix'
  | _ :: _, [] => false
  end.

(** [s.includes(needle)]: [needle] starts at some position of [s]. *)
Fixpoint includes (s needle : jstring) : bool :=
  startsWith s needle ||
  match s with
  | [] => false
  | _ :: s' => includes s' needle
  end.

(** [array.includes(x)] on an array of strings. *)
Definition array_includes (a : list jstring) (x : jstring) : bool :=
  existsb (jstring_eqb x) a.

(** [array.join(sep)] on an array of strings. *)
Fixpoint join (sep : jstring) (a : list jstring) : jstring :=
  match a with
  | [] => []
  | [x] => x
  | x :: rest => x ++ sep ++ join sep rest
  end.

(** *** [buf.toString('utf8')]

    The decoder replaces every maximal ill-formed subsequence by U+FFFD and
    resumes at the offending byte; a code point above U+FFFF becomes a
    surrogate pair. *)

Module Utf8.

Record state : Type := mkState {
  needed : nat;   (* continuation bytes still expected *)
  codepoint : Z;
  lower : Z;      (* bounds on the next continuation byte *)
  upper : Z
}.

Definition start : state :=
  {| needed := 0; codepoint := 0; lower := 128; upper := 191 |}.

Definition replacement : Z := 65533.

Definition utf16 (cp : Z) : jstring :=
  if cp <? 65536 then [cp]
  else [55296 + Z.shiftr (cp - 65536) 10; 56320 + Z.land (cp - 65536) 1023].

(** A byte read when no sequence is open. *)
Definition lead (b : Z) : jstring * state :=
  if b <? 128 then ([b], start)
  else if (194 <=? b) && (b <=? 223) then
    ([], {| needed := 1; codepoint := Z.land b 31; lower := 128; upper := 191 |})
  else if (224 <=? b) && (b <=? 239) then
    ([], {| needed := 2; codepoint := Z.land b 15;
            lower := if b =? 224 then 160 else 128;
            upper := if b =? 237 then 159 else 191 |})
  else if (240 <=? b) && (b <=? 244) then
    ([], {| needed := 3; codepoint := Z.land b 7;
            lower := if b =? 240 then 144 else 128;
            upper := if b =? 244 then 143 else 191 |})
  else ([replacement], start).

Fixpoint decode (st : state) (bs : bytes) : jstring :=
  match bs with
  | [] => match needed st with O => [] | S _ => [replacement] end
  | x :: rest =>
      let b := Z.of_N (Byte.to_N x) in
      match needed st with
      | O => let '(out, st') := lead b in out ++ decode st' rest
      | S n =>
          if (lower st <=? b) && (b <=? upper st) then
            let cp := Z.lor (Z.shiftl (codepoint st) 6) (Z.land b 63) in
            match n with
            | O => utf16 cp ++ decode start rest
            | S _ => decode {| needed := n; codepoint := cp;
                               lower := 128; upper := 191 |} rest
            end
          else
            let '(out, st') := lead b in
            replacement :: out ++ decode st' rest
      end
  end.

End Utf8.

Definition toString_utf8 (buf : bytes) : jstring := Utf8.decode Utf8.start buf.

(** ** The cursor of [parseSSHCertificate]

    [readString], [readUInt64] and [readUInt32] close over [certBuffer] and
    the mutable [pos]; a reader takes the current [pos] and completes with a
    result and the new [pos]. *)

Definition reader (A : Type) : Type := num -> completion (A * num).

#[global] Instance reader_ret : MRet reader :=
  fun A (a : A) pos => Normal (a, pos).

#[global] Instance reader_bind : MBind reader :=
  fun A B (k : A -> reader B) (m : reader A) pos =>
    match m pos with
    | Normal (a, pos') => k a pos'
    | Throw e => Throw e
    | Timeout => Timeout
    end.

Definition unexpected_end : JsError := Error (js "Unexpected end of certificate").

(** The bytes [bs] as one big-endian unsigned integer. *)
Definition be_value (bs : bytes) : Z :=
  fold_left (fun acc b => acc * 256 + Z.of_N (Byte.to_N b)) bs 0.

(** The [RangeError] of Node's buffer readers (code [ERR_OUT_OF_RANGE]; the
    wording of its message is not modelled). *)
Definition out_of_range : JsError :=
  {| err_name := js "RangeError"; err_message := js "ERR_OUT_OF_RANGE" |}.

(** Node's [buf.readBigUInt64BE(offset)]: the eight bytes at [offset] as a
    big-endian integer, a [RangeError] when they are not all inside the
    buffer. *)
Definition readBigUInt64BE (buf : bytes) (offset : num) : completion Z :=
  match offset with
  | Int o =>
      if (0 <=? o) && (o + 8 <=? Z.of_nat (List.length buf))
      then Normal (be_value (take 8 (drop (Z.to_nat o) buf)))
      else Throw out_of_range
  | NaN => Throw out_of_range
  end.

Section Cursor.

Variable certBuffer : bytes.

Definition readString : reader bytes := fun pos =>
  if num_gt (pos +' Int 4) (Buffer.length certBuffer) then Throw unexpected_end
  else
    let len := readUInt32BE certBuffer pos in
    let pos := pos +' Int 4 in
    if num_gt (pos +' len) (Buffer.length certBuffer) then Throw unexpected_end
    else
      let result := Buffer.slice certBuffer pos (pos +' len) in
      let pos := pos +' len in
      Normal (result, pos).

Definition readUInt64 : reader Z := fun pos =>
  if num_gt (pos +' Int 8) (Buffer.length certBuffer) then Throw unexpected_end
  else
    match readBigUInt64BE certBuffer pos with
    | Normal result => Normal (result, pos +' Int 8)
    | Throw e => Throw e
    | Timeout => Timeout
    end.

Definition readUInt32 : reader num := fun pos =>
  if num_gt (pos +' Int 4) (Buffer.length certBuffer) then Throw unexpected_end
  else
    let result := readUInt32BE certBuffer pos in
    Normal (result, pos +' Int 4).

End Cursor.

(** A completion of a sub-computation that does not move the cursor. *)
Definition lift {A : Type} (c : completion A) : reader A := fun pos =>
  match c with
  | Normal a => Normal (a, pos)
  | Throw e => Throw e
  | Timeout => Timeout
  end.

(** The completion of a reader started at [pos], its final cursor dropped. *)
Definition run {A : Type} (m : reader A) (pos : num) : completion A :=
  match m pos with
  | Normal (a, _) => Normal a
  | Throw e => Throw e
  | Timeout => Timeout
  end.

(** ** The parsed certificate *)

Inductive CertType : Type := user | host | unknown.

#[global] Instance CertType_eq_dec : EqDecision CertType.
Proof. solve_decision. Defined.

Record Certificate : Type := mkCertificate {
  type : jstring;
  nonce : bytes;
  serial : Z;
  certType : CertType;
  keyId : jstring;
  principals : list jstring;
  validAfter : Z;
  validBefore : Z;
  criticalOptions : gmap jstring bytes;
  extensions : gmap jstring bytes;
  signatureKeyBlob : bytes;
  signature : bytes
}.

(** What [parseSSHCertificate] returns and [validateCertificate] receives:
    a certificate object, or an [Error] object. *)
Inductive cert_or_error : Type :=
| IsCert (cert : Certificate)
| IsError (err : JsError).

(** ** The sub-field loops of [parseSSHCertificate]

    Each [while] loop is unrolled at most [fuel] times; [Timeout] marks an
    exhausted budget. *)

Fixpoint principals_loop (fuel : nat) (principalsBuffer : bytes) (pPos : num)
    (principals : list jstring) : completion (list jstring) :=
  if num_lt pPos (Buffer.length principalsBuffer) then
    match fuel with
    | O => Timeout
    | S fuel' =>
        let len := readUInt32BE principalsBuffer pPos in
        let pPos := pPos +' Int 4 in
        let principals :=
          principals ++
          [toString_utf8 (Buffer.slice principalsBuffer pPos (pPos +' len))] in
        let pPos := pPos +' len in
        principals_loop fuel' principalsBuffer pPos principals
    end
  else Normal principals.

Definition parsePrincipals (principalsBuffer : bytes) : completion (list jstring) :=
  if num_gt (Buffer.length principalsBuffer) (Int 0) then
    principals_loop (S (List.length principalsBuffer)) principalsBuffer (Int 0) []
  else Normal [].

(** The loop of critical options and, with other variable names, of
    extensions.  The object the loop fills is a finite map from property
    names to buffers; an assignment overwrites an earlier one of the same
    name.  (The property name [__proto__] is taken as an ordinary name.) *)
Fixpoint options_loop (fuel : nat) (buffer : bytes) (cPos : num)
    (options : gmap jstring bytes) : completion (gmap jstring bytes) :=
  if num_lt cPos (Buffer.length buffer) then
    match fuel with
    | O => Timeout
    | S fuel' =>
        let nameLen := readUInt32BE buffer cPos in
        let cPos := cPos +' Int 4 in
        let name := toString_utf8 (Buffer.slice buffer cPos (cPos +' nameLen)) in
        let cPos := cPos +' nameLen in
        let dataLen := readUInt32BE buffer cPos in
        let cPos := cPos +' Int 4 in
        let data := Buffer.slice buffer cPos (cPos +' dataLen) in
        let cPos := cPos +' dataLen in
        options_loop fuel' buffer cPos (<[name := data]> options)
    end
  else Normal options.

Definition parseOptions (buffer : bytes) : completion (gmap jstring bytes) :=
  if num_gt (Buffer.length buffer) (Int 0) then
    options_loop (S (List.length buffer)) buffer (Int 0) ∅
  else Normal ∅.

(** ** [parseSSHCertificate] *)

Definition certType_of (typeNum : num) : CertType :=
  match typeNum with
  | Int 1 => user
  | Int 2 => host
  | _ => unknown
  end.

Definition unsupported_type (typeStr : jstring) : JsError :=
  Error (js "Unsupported certificate type: " ++ typeStr).

Section Parse.

Variable certBuffer : bytes.

(** Steps 3-4: the key-specific fields, skipped by key type; [false] when
    no branch applies (the source returns the error there). *)
Definition keyMaterial (typeStr : jstring) : reader bool :=
  if startsWith typeStr (js "ssh-rsa") then
    readString certBuffer ;; readString certBuffer ;; mret true
  else if startsWith typeStr (js "ecdsa-sha2-nistp") then
    readString certBuffer ;; readString certBuffer ;; mret true
  else if startsWith typeStr (js "ssh-ed25519") then
    readString certBuffer ;; mret true
  else if startsWith typeStr (js "ssh-dss") then
    readString certBuffer ;; readString certBuffer ;;
    readString certBuffer ;; readString certBuffer ;; mret true
  else mret false.

(** Steps 5-15. *)
Definition fromSerial (typeStr : jstring) (nonce : bytes) : reader Certificate :=
  serial ← readUInt64 certBuffer;
  typeNum ← readUInt32 certBuffer;
  keyIdBuffer ← readString certBuffer;
  principalsBuffer ← readString certBuffer;
  principals ← lift (parsePrincipals principalsBuffer);
  validAfter ← readUInt64 certBuffer;
  validBefore ← readUInt64 certBuffer;
  criticalBuffer ← readString certBuffer;
  criticalOptions ← lift (parseOptions criticalBuffer);
  extensionsBuffer ← readString certBuffer;
  extensions ← lift (parseOptions extensionsBuffer);
  readString certBuffer ;;
  signatureKeyBlob ← readString certBuffer;
  signature ← readString certBuffer;
  mret {| type := typeStr; nonce := nonce; serial := serial;
          certType := certType_of typeNum;
          keyId := toString_utf8 keyIdBuffer;
          principals := principals;
          validAfter := validAfter; validBefore := validBefore;
          criticalOptions := criticalOptions; extensions := extensions;
          signatureKeyBlob := signatureKeyBlob; signature := signature |}.

(** The body of the [try] block. *)
Definition parse_body : reader cert_or_error :=
  typeBuffer ← readString certBuffer;
  let typeStr := toString_utf8 typeBuffer in
  nonce ← readString certBuffer;
  supported ← keyMaterial typeStr;
  if (supported : bool) then
    cert ← fromSerial typeStr nonce;
    mret (IsCert cert)
  else mret (IsError (unsupported_type typeStr)).

End Parse.

Definition invalid_buffer : JsError := Error (js "Invalid certificate buffer").

Definition parseSSHCertificate (certBuffer : value) : completion cert_or_error :=
  match certBuffer with
  | VBuffer b =>
      if num_lt (Buffer.length b) (Int 8) then Normal (IsError invalid_buffer)
      else try_catch (run (parse_body b) (Int 0)) (fun err => Normal (IsError err))
  | _ => Normal (IsError invalid_buffer)
  end.

(** ** [isCertificate] *)

Definition isCertificate (data : value) : completion bool :=
  match data with
  | VBuffer b =>
      if num_lt (Buffer.length b) (Int 16) then Normal false
      else
        try_catch
          (if num_lt (Buffer.length b) (Int 4) then Normal false
           else
             let len := readUInt32BE b (Int 0) in
             if num_gt len (Int 64) || num_lt (Buffer.length b) (Int 4 +' len)
             then Normal false
             else
               let type := toString_utf8 (Buffer.slice b (Int 4) (Int 4 +' len)) in
               Normal (includes type (js "-cert-v")))
          (fun _ => Normal false)
  | _ => Normal false
  end.

(** ** [validateCertificate]

    [now] is the value of [BigInt(Math.floor(Date.now() / 1000))], the only
    input the function takes from its environment. *)

Record Verdict : Type := mkVerdict {
  valid : bool;
  reason : option jstring
}.

(** Truthiness of a BigInt: every value but [0n]. *)
Definition truthy_bigint (n : Z) : bool := negb (n =? 0).

(** Truthiness of an array object: always. *)
Definition truthy_array {A : Type} (a : list A) : bool := true.

Definition principal_mismatch (username : jstring) (principals : list jstring) : jstring :=
  js "Username " ++ dquote ++ username ++ dquote ++
  js " not in certificate principals: " ++ join (js ", ") principals.

Definition validateCertificate (now : Z) (cert : cert_or_error)
    (username : jstring) : Verdict :=
  match cert with
  | IsError err => {| valid := false; reason := Some (err_message err) |}
  | IsCert cert =>
      if truthy_bigint (validBefore cert) && (validBefore cert <=? now) then
        {| valid := false; reason := Some (js "Certificate has expired") |}
      else if truthy_bigint (validAfter cert) && (now <? validAfter cert) then
        {| valid := false; reason := Some (js "Certificate is not yet valid") |}
      else if bool_decide (certType cert = user)
              && truthy_array (principals cert)
              && (0 <? Z.of_nat (List.length (principals cert))) then
        if negb (array_includes (principals cert) username) then
          {| valid := false;
             reason := Some (principal_mismatch username (principals cert)) |}
        else {| valid := true; reason := None |}
      else {| valid := true; reason := None |}
  end.

(** ** The certificate key adapter

    [isCertificate] and [parseSSHCertificate] are imported from the codec
    module; the adapter's functions record each call they make to them. *)

Inductive event : Type :=
| CallSniffer (data : value)
| CallCodec (data : value).

Definition traced (A : Type) : Type := (completion A * list event)%type.

#[global] Instance traced_ret : MRet traced :=
  fun A (a : A) => (Normal a, []).

#[global] Instance traced_bind : MBind traced :=
  fun A B (k : A -> traced B) (m : traced A) =>
    match m with
    | (Normal a, log) => let '(r, log') := k a in (r, log ++ log')
    | (Throw e, log) => (Throw e, log)
    | (Timeout, log) => (Timeout, log)
    end.

Definition traced_try {A : Type} (body : traced A)
    (handler : JsError -> traced A) : traced A :=
  match body with
  | (Throw e, log) => let '(r, log') := handler e in (r, log ++ log')
  | other => other
  end.

(** A completion that calls neither import. *)
Definition traced_lift {A : Type} (c : completion A) : traced A := (c, []).

Definition call_isCertificate (data : value) : traced bool :=
  (isCertificate data, [CallSniffer data]).

Definition call_parseSSHCertificate (data : value) : traced cert_or_error :=
  (parseSSHCertificate data, [CallCodec data]).

(** The result and the calls of a traced computation. *)
Definition result {A : Type} (m : traced A) : completion A := fst m.
Definition calls {A : Type} (m : traced A) : list event := snd m.

(** A reference to a key object, as a caller may pass it. *)
Inductive keyref (K : Type) : Type :=
| KObject (k : K)
| KNull
| KUndefined.

Arguments KObject {K} k.
Arguments KNull {K}.
Arguments KUndefined {K}.

(** Reading a property of [null] or [undefined]. *)
Definition TypeError (message : jstring) : JsError :=
  {| err_name := js "TypeError"; err_message := message |}.

Section Adapter.

(** What a key operation may read and update besides its arguments (the
    entropy source of a randomised signature, for one). *)
Context {World : Type}.

Definition operation (A : Type) : Type := World -> completion A * World.

(** The key objects of the key parser, by the members the adapter uses;
    [getPublicPEM] and [getPublicSSH] may be absent from an object. *)
Class BaseKey (K : Type) : Type := {
  key_type : K -> value;
  key_comment : K -> value;
  isPrivateKey : K -> operation value;
  getPublicPEM : K -> option (operation value);
  getPublicSSH : K -> option (value -> operation value);
  sign : K -> value -> value -> operation value;
  verify : K -> value -> value -> value -> operation value
}.

Context {K : Type} `{BaseKey K}.

Record CertificateKey : Type := mkCertificateKey {
  baseKey : K;
  certificate : Certificate;
  certBuffer : value;
  ck_type : value;
  ck_comment : value
}.

(** [new CertificateKey(baseKey, certificate, certBuffer)]. *)
Definition new_CertificateKey (baseKey : keyref K) (certificate : Certificate)
    (certBuffer : value) : completion CertificateKey :=
  match baseKey with
  | KObject k =>
      Normal {| baseKey := k; certificate := certificate;
                certBuffer := certBuffer;
                ck_type := key_type k; ck_comment := key_comment k |}
  | KNull =>
      Throw (TypeError (js "Cannot read properties of null (reading 'type')"))
  | KUndefined =>
      Throw (TypeError (js "Cannot read properties of undefined (reading 'type')"))
  end.

Definition CertificateKey_isPrivateKey (this : CertificateKey) : operation value :=
  isPrivateKey (baseKey this).

(** [this.baseKey.getPublicPEM?.()]. *)
Definition CertificateKey_getPublicPEM (this : CertificateKey) : operation value :=
  match getPublicPEM (baseKey this) with
  | Some method => method
  | None => fun w => (Normal VUndefined, w)
  end.

(** [this.baseKey.getPublicSSH?.(algo)]. *)
Definition CertificateKey_getPublicSSH (this : CertificateKey) (algo : value)
    : operation value :=
  match getPublicSSH (baseKey this) with
  | Some method => method algo
  | None => fun w => (Normal VUndefined, w)
  end.

Definition CertificateKey_sign (this : CertificateKey) (data algo : value)
    : operation value :=
  sign (baseKey this) data algo.

Definition CertificateKey_verify (this : CertificateKey)
    (data signature algo : value) : operation value :=
  verify (baseKey this) data signature algo.

Definition getCertificate (this : CertificateKey) : Certificate :=
  certificate this.

Definition getCertificateBuffer (this : CertificateKey) : value :=
  certBuffer this.

(** A certificate key offers every member of the interface itself. *)
#[global] Instance CertificateKey_BaseKey : BaseKey CertificateKey := {
  key_type := ck_type;
  key_comment := ck_comment;
  isPrivateKey := CertificateKey_isPrivateKey;
  getPublicPEM := fun this => Some (CertificateKey_getPublicPEM this);
  getPublicSSH := fun this => Some (CertificateKey_getPublicSSH this);
  sign := CertificateKey_sign;
  verify := CertificateKey_verify
}.

Inductive wrapped : Type :=
| Wrapped (key : CertificateKey)
| WrapError (err : JsError).

Definition not_a_buffer : JsError := Error (js "Certificate must be a Buffer").

Definition not_a_certificate : JsError :=
  Error (js "Buffer does not appear to be a certificate").

Definition wrapKeyWithCertificate (key : keyref K) (certBuffer : value)
    : traced wrapped :=
  if negb (Buffer.isBuffer certBuffer) then mret (WrapError not_a_buffer)
  else
    traced_try
      (isCert ← call_isCertificate certBuffer;
       if negb (isCert : bool) then mret (WrapError not_a_certificate)
       else
         certificate ← call_parseSSHCertificate certBuffer;
         match certificate : cert_or_error with
         | IsError err => mret (WrapError err)
         | IsCert cert =>
             wrapper ← traced_lift (new_CertificateKey key cert certBuffer);
             mret (Wrapped wrapper)
         end)
      (fun err => mret (WrapError err)).

End Adapter.

Inductive extracted : Type :=
| Extracted (certBuffer : value)   (* the object [{ certBuffer: data }] *)
| ExtractNull
| ExtractError (err : JsError).

Definition data_not_a_buffer : JsError := Error (js "Data must be a Buffer").

Definition extractCertificateFromData (data : value) : traced extracted :=
  if negb (Buffer.isBuffer data) then mret (ExtractError data_not_a_buffer)
  else
    isCert ← call_isCertificate data;
    if negb (isCert : bool) then mret ExtractNull
    else
      traced_try (mret (Extracted data)) (fun err => mret (ExtractError err)).

(** ** Wire fixtures: builders for the concrete buffers of the examples *)

Module Wire.

Definition byte_of (z : Z) : byte :=
  match Byte.of_N (Z.to_N (z mod 256)) with
  | Some b => b
  | None => x00
  end.

Definition u32 (n : Z) : bytes :=
  [byte_of (n / 16777216); byte_of (n / 65536); byte_of (n / 256); byte_of n].

Definition u64 (n : Z) : bytes := u32 (n / 4294967296) ++ u32 n.

Definition text (s : string) : bytes :=
  List.map byte_of_ascii (list_ascii_of_string s).

(** A length-prefixed field. *)
Definition field (content : bytes) : bytes :=
  u32 (Z.of_nat (List.length content)) ++ content.

(** A field whose prefix claims [claimed] bytes, whatever follows. *)
Definition field_claiming (claimed : Z) (content : bytes) : bytes :=
  u32 claimed ++ content.

(** An ed25519 user certificate with the given principals field, validity
    window and otherwise empty or dummy fields. *)
Definition ed25519_cert (principalsField : bytes) (after before : Z) : bytes :=
  field (text "ssh-ed25519-cert-v01@openssh.com")
  ++ field (text "nonce")
  ++ field (text "pk")
  ++ u64 7
  ++ u32 1
  ++ field (text "key-id")
  ++ field principalsField
  ++ u64 after
  ++ u64 before
  ++ field []
  ++ field (field (text "permit-pty") ++ field [])
  ++ field []
  ++ field (text "ca-key")
  ++ field (text "sig").

End Wire.

(** ** Reading inside the buffer: the value of a byte and of a prefix *)

Definition byte_value (x : byte) : Z := Z.of_N (Byte.to_N x).

(** The length prefix at [p], when its four bytes are inside the buffer. *)
Definition prefix_at (b : bytes) (p : Z) : Z :=
  be_value (take 4 (drop (Z.to_nat p) b)).

(** ** Statements of the specification, as definitions *)

#[global] Instance Verdict_eq_dec : EqDecision Verdict.
Proof. solve_decision. Defined.

Definition valid_verdict : Verdict := {| valid := true; reason := None |}.

Definition invalid (why : jstring) : Verdict :=
  {| valid := false; reason := Some why |}.

Definition expired_verdict : Verdict := invalid (js "Certificate has expired").

Definition not_yet_valid_verdict : Verdict :=
  invalid (js "Certificate is not yet valid").

(** A verdict passes the temporal checks when it is neither of the two
    temporal rejections. *)
Definition passes_temporal (v : Verdict) : bool :=
  negb (bool_decide (v = expired_verdict))
  && negb (bool_decide (v = not_yet_valid_verdict)).

(** The half-open window as the specification words it, with no regard to
    whether a bound is set. *)
Definition half_open_window (now : Z) (cert : Certificate) (username : jstring) : Prop :=
  let v := validateCertificate now (IsCert cert) username in
  (passes_temporal v = true <-> validAfter cert <= now < validBefore cert)
  /\ (validBefore cert <= now -> v = expired_verdict)
  /\ (now < validAfter cert -> v = not_yet_valid_verdict).

(** The four clauses of the validator in the specification's order; a
    clause yields the reason it rejects with. *)
Definition failure_clause (input : cert_or_error) : option jstring :=
  match input with
  | IsError err => Some (err_message err)
  | IsCert _ => None
  end.

Definition expired_clause (now : Z) (input : cert_or_error) : option jstring :=
  match input with
  | IsCert cert =>
      if decide (validBefore cert <> 0 /\ validBefore cert <= now)
      then Some (js "Certificate has expired") else None
  | IsError _ => None
  end.

Definition not_yet_valid_clause (now : Z) (input : cert_or_error) : option jstring :=
  match input with
  | IsCert cert =>
      if decide (validAfter cert <> 0 /\ now < validAfter cert)
      then Some (js "Certificate is not yet valid") else None
  | IsError _ => None
  end.

Definition mismatch_clause (input : cert_or_error) (username : jstring) : option jstring :=
  match input with
  | IsCert cert =>
      if decide (certType cert = user /\ principals cert <> []
                 /\ username ∉ principals cert)
      then Some (js "Username " ++ dquote ++ username ++ dquote ++
                 js " not in certificate principals: " ++
                 join (js ", ") (principals cert))
      else None
  | IsError _ => None
  end.

(** The verdict of an ordered list of clauses: the first rejection. *)
Fixpoint first_failure (clauses : list (option jstring)) : Verdict :=
  match clauses with
  | [] => valid_verdict
  | Some why :: _ => invalid why
  | None :: rest => first_failure rest
  end.

(** *** The sniffer, as the specification words it

    A buffer of at least [min_length] bytes whose first length prefix is at
    most 64 and fits, and whose first field, as text, contains "-cert-v".
    The specification has [min_length = 4]. *)
Definition sniff_rule (min_length : Z) (data : value) : bool :=
  match data with
  | VBuffer b =>
      let len := be_value (take 4 b) in
      (min_length <=? Z.of_nat (List.length b))
      && (len <=? 64)
      && (4 + len <=? Z.of_nat (List.length b))
      && includes (toString_utf8 (take (Z.to_nat len) (drop 4 b))) (js "-cert-v")
  | _ => false
  end.

(** *** The key-material table of the codec, as the specification words it *)
Definition key_material_fields (identifier : jstring) : option nat :=
  if startsWith identifier (js "ssh-rsa") then Some 2%nat
  else if startsWith identifier (js "ecdsa-sha2-nistp") then Some 2%nat
  else if startsWith identifier (js "ssh-ed25519") then Some 1%nat
  else if startsWith identifier (js "ssh-dss") then Some 4%nat
  else None.

(** Skipping exactly [n] length-prefixed fields. *)
Fixpoint skip_fields (certBuffer : bytes) (n : nat) : reader unit :=
  match n with
  | O => mret ()
  | S n' => readString certBuffer ;; skip_fields certBuffer n'
  end.

(** Decoding from the serial on, after the key material was skipped. *)
Definition decode_from_serial (certBuffer : bytes) (identifier : jstring)
    (nonce : bytes) (fields : nat) (pos : num) : completion cert_or_error :=
  try_catch
    (run (skip_fields certBuffer fields ;;
          cert ← fromSerial certBuffer identifier nonce;
          mret (IsCert cert)) pos)
    (fun err => Normal (IsError err)).

(** The unsupported-type failure exactly for the identifiers outside the
    table, for a buffer whose identifier is read. *)
Definition unsupported_iff_outside_table (b : bytes) : Prop :=
  forall typeBuffer pos,
    readString b (Int 0) = Normal (typeBuffer, pos) ->
    (parseSSHCertificate (VBuffer b)
       = Normal (IsError (unsupported_type (toString_utf8 typeBuffer)))
     <-> key_material_fields (toString_utf8 typeBuffer) = None).

(** *** Trailing bytes

    [m'] completes as [m] does wherever [m] returns from a cursor inside the
    buffer, and the cursor stays an integer. *)
Definition carries_over {A : Type} (m m' : reader A) : Prop :=
  forall p a pos',
    0 <= p -> m (Int p) = Normal (a, pos') ->
    m' (Int p) = Normal (a, pos') /\ exists p', pos' = Int p' /\ 0 <= p'.

(** ** Example certificates *)

Module Examples.

Import Wire.

Definition sample (principals : list jstring) (after before : Z) : Certificate :=
  {| type := js "ssh-ed25519-cert-v01@openssh.com";
     nonce := text "nonce"; serial := 7; certType := user;
     keyId := js "key-id"; principals := principals;
     validAfter := after; validBefore := before;
     criticalOptions := ∅;
     extensions := <[js "permit-pty" := []]> ∅;
     signatureKeyBlob := text "ca-key"; signature := text "sig" |}.

(** A certificate whose [valid before] field is 0 on the wire. *)
Definition zero_before : Certificate := sample [] 0 0.

Definition admin_root : Certificate := sample [js "admin"; js "root"] 100 200.

(** The wire form of [admin_root]. *)
Definition admin_root_wire : bytes :=
  ed25519_cert (field (text "admin") ++ field (text "root")) 100 200.

(** A principals field of six bytes whose inner prefix claims ten bytes
    where two are left. *)
Definition overrun_principals : bytes := field_claiming 10 (text "ab").

Definition overrun_wire : bytes := ed25519_cert overrun_principals 100 200.

(** Fifteen bytes: a first field "-cert-v" and four more bytes. *)
Definition short_cert_like : bytes := field (text "-cert-v") ++ u32 0.

(** Eight bytes: an identifier outside the table and no nonce. *)
Definition only_identifier : bytes := field (text "abcd").

(** A certificate identifier and nothing else: it passes the sniffer and
    fails to decode. *)
Definition identifier_only_cert : bytes :=
  field (text "ssh-ed25519-cert-v01@openssh.com").

(** A plain public key blob. *)
Definition plain_key : bytes :=
  field (text "ssh-ed25519") ++ field (text "0123456789abcdef0123456789abcdef").

(** A key object whose operations echo their arguments; the world counts
    the operations performed. *)
Definition toy_key : @BaseKey nat unit := {|
  key_type := fun _ => VString (js "ssh-ed25519");
  key_comment := fun _ => VUndefined;
  isPrivateKey := fun _ w => (Normal (VBool true), S w);
  getPublicPEM := fun _ => None;
  getPublicSSH := fun _ => Some (fun algo w => (Normal algo, S w));
  sign := fun _ data algo w => (Normal data, S w);
  verify := fun _ data signature algo w => (Normal (VBool true), S w)
|}.

End Examples.

(** ** Auxiliary notions of the proofs *)

(** A cursor that is [NaN] or so far along that [fuel] rounds suffice. *)
Definition within_budget (fuel : nat) (b : bytes) (pos : num) : Prop :=
  match pos with
  | Int p => Z.of_nat (List.length b) - p < Z.of_nat fuel
  | NaN => True
  end.

(** The two errors the cursor's readers throw. *)
Definition cursor_error (e : JsError) : Prop :=
  e = unexpected_end \/ e = out_of_range.

(** A tame reader never exhausts a budget, and throws nothing but the
    cursor's two errors. *)

Definition tame {A : Type} (m : reader A) : Prop :=
  forall pos,
    match m pos with
    | Normal _ => True
    | Throw e => cursor_error e
    | Timeout => False
    end.

(** ** Further notions: the cursor inside the buffer, the wire layout *)

(** A reader that, started inside the buffer, stays inside it, moves
    forward only, returns results that satisfy [Q], and throws nothing but
    the truncation error. *)
Definition safe (b : bytes) {A : Type} (Q : A -> Prop) (m : reader A) : Prop :=
  forall p,
    0 <= p <= Z.of_nat (List.length b) ->
    match m (Int p) with
    | Normal (a, pos') =>
        Q a /\ exists p', pos' = Int p' /\ p <= p' <= Z.of_nat (List.length b)
    | Throw e => e = unexpected_end
    | Timeout => False
    end.

(** The inputs [parseSSHCertificate] rejects before reading anything. *)
Definition rejected_unread (certBuffer : value) : bool :=
  match certBuffer with
  | VBuffer b => Z.of_nat (List.length b) <? 8
  | _ => true
  end.

(** The offset just past the signature, for a buffer that decodes. *)
Definition decoded_length (b : bytes) : option Z :=
  match parse_body b (Int 0) with
  | Normal (IsCert _, Int n) => Some n
  | _ => None
  end.

(** The wire layout that the header comment of [parseSSHCertificate]
    lists: strings with a 32-bit big-endian length prefix, 64-bit and
    32-bit big-endian integers. *)
Module Layout.

Import Wire.

(** Back-to-back length-prefixed names: the content of a principals field. *)
Definition names (l : list bytes) : bytes := flat_map field l.

(** Back-to-back (name, data) pairs: the content of an options field. *)
Definition options (l : list (bytes * bytes)) : bytes :=
  flat_map (fun entry => field (fst entry) ++ field (snd entry)) l.

(** The object the options loop builds from the pairs, in order. *)
Definition options_object (l : list (bytes * bytes)) : gmap jstring bytes :=
  fold_left (fun object entry => <[toString_utf8 (fst entry) := snd entry]> object)
            l ∅.

(** The fields of a certificate, raw. *)
Record fields : Type := mkFields {
  f_type : bytes;
  f_nonce : bytes;
  f_key : list bytes;          (* the key-specific fields *)
  f_serial : Z;
  f_certType : Z;
  f_keyId : bytes;
  f_principals : list bytes;
  f_validAfter : Z;
  f_validBefore : Z;
  f_critical : list (bytes * bytes);
  f_extensions : list (bytes * bytes);
  f_reserved : bytes;
  f_signatureKey : bytes;
  f_signature : bytes
}.

Definition certificate (c : fields) : bytes :=
  field (f_type c)
  ++ field (f_nonce c)
  ++ names (f_key c)
  ++ u64 (f_serial c)
  ++ u32 (f_certType c)
  ++ field (f_keyId c)
  ++ field (names (f_principals c))
  ++ u64 (f_validAfter c)
  ++ u64 (f_validBefore c)
  ++ field (options (f_critical c))
  ++ field (options (f_extensions c))
  ++ field (f_reserved c)
  ++ field (f_signatureKey c)
  ++ field (f_signature c).

(** What [parseSSHCertificate] is to make of the fields. *)
Definition decoded (c : fields) : Certificate :=
  {| type := toString_utf8 (f_type c);
     nonce := f_nonce c;
     serial := f_serial c;
     certType := certType_of (Int (f_certType c));
     keyId := toString_utf8 (f_keyId c);
     principals := List.map toString_utf8 (f_principals c);
     validAfter := f_validAfter c;
     validBefore := f_validBefore c;
     criticalOptions := options_object (f_critical c);
     extensions := options_object (f_extensions c);
     signatureKeyBlob := f_signatureKey c;
     signature := f_signature c |}.

(** A length that fits a 32-bit prefix. *)
Definition fits (x : bytes) : Prop := Z.of_nat (List.length x) < 4294967296.

(** Every variable-length part fits its prefix, and every integer its width. *)
Definition well_sized (c : fields) : Prop :=
  fits (f_type c) /\ fits (f_nonce c) /\ Forall fits (f_key c)
  /\ 0 <= f_serial c < 18446744073709551616
  /\ 0 <= f_certType c < 4294967296
  /\ fits (f_keyId c)
  /\ Forall fits (f_principals c) /\ fits (names (f_principals c))
  /\ 0 <= f_validAfter c < 18446744073709551616
  /\ 0 <= f_validBefore c < 18446744073709551616
  /\ Forall (fun e => fits (fst e) /\ fits (snd e)) (f_critical c)
  /\ fits (options (f_critical c))
  /\ Forall (fun e => fits (fst e) /\ fits (snd e)) (f_extensions c)
  /\ fits (options (f_extensions c))
  /\ fits (f_reserved c) /\ fits (f_signatureKey c) /\ fits (f_signature c).

End Layout.

(** A reader [m'] over [b1] returns what [m] over [b1 ++ b2] returns,
    whenever [m] stops inside [b1]. *)
Definition survives (b1 b2 : bytes) {A : Type} (m m' : reader A) : Prop :=
  forall p a p',
    0 <= p <= Z.of_nat (List.length (b1 ++ b2)) ->
    m (Int p) = Normal (a, Int p') ->
    p' <= Z.of_nat (List.length b1) ->
    m' (Int p) = Normal (a, Int p').

(** An RSA user certificate, field by field. *)
Definition rsa_fields : Layout.fields := {|
  Layout.f_type := Wire.text "ssh-rsa-cert-v01@openssh.com";
  Layout.f_nonce := Wire.text "0123456789abcdef";
  Layout.f_key := [Wire.text "e"; Wire.text "modulus"];
  Layout.f_serial := 42;
  Layout.f_certType := 1;
  Layout.f_keyId := Wire.text "alice@example";
  Layout.f_principals := [Wire.text "admin"; Wire.text "root"];
  Layout.f_validAfter := 1000;
  Layout.f_validBefore := 2000;
  Layout.f_critical := [(Wire.text "force-command", Wire.text "uptime")];
  Layout.f_extensions := [(Wire.text "permit-pty", []);
                          (Wire.text "permit-port-forwarding", [])];
  Layout.f_reserved := [];
  Layout.f_signatureKey := Wire.text "ca-key";
  Layout.f_signature := Wire.text "sig"
|}.

(** ** The validator *)

Lemma array_includes_elem_of (a : list jstring) (x : jstring) :
  array_includes a x = true <-> x ∈ a.
Proof.
  unfold array_includes. rewrite existsb_exists. split.
  - intros (y & Hin & Heq). apply bool_decide_eq_true in Heq. subst.
    by apply list_elem_of_In.
  - intros Hin. exists x. split; [by apply list_elem_of_In|].
    by apply bool_decide_eq_true.
Qed.

Lemma truthy_bigint_spec (n : Z) : truthy_bigint n = true <-> n <> 0.
Proof. unfold truthy_bigint. destruct (Z.eqb_spec n 0); simpl; split; congruence. Qed.

Lemma nonempty_length {A : Type} (l : list A) :
  (0 <? Z.of_nat (List.length l)) = true <-> l <> [].
Proof.
  destruct l; simpl; split; congruence || done.
Qed.

(** The three guarded tests of [validateCertificate], as propositions. *)
Lemma expired_test (now : Z) (cert : Certificate) :
  truthy_bigint (validBefore cert) && (validBefore cert <=? now) = true
  <-> validBefore cert <> 0 /\ validBefore cert <= now.
Proof. rewrite andb_true_iff, truthy_bigint_spec, Z.leb_le. tauto. Qed.

Lemma not_yet_valid_test (now : Z) (cert : Certificate) :
  truthy_bigint (validAfter cert) && (now <? validAfter cert) = true
  <-> validAfter cert <> 0 /\ now < validAfter cert.
Proof. rewrite andb_true_iff, truthy_bigint_spec, Z.ltb_lt. tauto. Qed.

Lemma principal_guard_test (cert : Certificate) :
  bool_decide (certType cert = user) && truthy_array (principals cert)
  && (0 <? Z.of_nat (List.length (principals cert))) = true
  <-> certType cert = user /\ principals cert <> [].
Proof.
  rewrite !andb_true_iff, bool_decide_eq_true, nonempty_length.
  unfold truthy_array. tauto.
Qed.

Lemma not_included_test (ps : list jstring) (username : jstring) :
  negb (array_includes ps username) = true <-> username ∉ ps.
Proof.
  rewrite negb_true_iff, <- not_true_iff_false, array_includes_elem_of. tauto.
Qed.

(** [validateCertificate] is the first rejection among its four clauses. *)
Lemma validateCertificate_clauses (now : Z) (input : cert_or_error) (username : jstring) :
  validateCertificate now input username =
  first_failure [failure_clause input; expired_clause now input;
                 not_yet_valid_clause now input; mismatch_clause input username].
Proof.
  destruct input as [cert|err]; simpl; [|reflexivity].
  destruct (truthy_bigint (validBefore cert) && (validBefore cert <=? now)) eqn:E1.
  { apply expired_test in E1. by rewrite decide_True. }
  rewrite decide_False by (rewrite <- expired_test; congruence).
  destruct (truthy_bigint (validAfter cert) && (now <? validAfter cert)) eqn:E2.
  { apply not_yet_valid_test in E2. by rewrite decide_True. }
  rewrite decide_False by (rewrite <- not_yet_valid_test; congruence).
  destruct (bool_decide (certType cert = user) && truthy_array (principals cert)
            && (0 <? Z.of_nat (List.length (principals cert)))) eqn:E3.
  - apply principal_guard_test in E3.
    destruct (negb (array_includes (principals cert) username)) eqn:E4.
    + apply not_included_test in E4. by rewrite decide_True by tauto.
    + rewrite decide_False; [reflexivity|].
      rewrite <- not_included_test. intros (_ & _ & ?). congruence.
  - rewrite decide_False; [reflexivity|].
    intros (? & ? & _). apply not_true_iff_false in E3. apply E3.
    by apply principal_guard_test.
Qed.

Lemma mismatch_verdict_not_temporal (username : jstring) (ps : list jstring) :
  passes_temporal (invalid (principal_mismatch username ps)) = true.
Proof.
  unfold passes_temporal.
  rewrite !bool_decide_eq_false_2; [reflexivity| |];
    unfold invalid, expired_verdict, not_yet_valid_verdict, principal_mismatch;
    intros [=]; discriminate.
Qed.

(** C5: the checks of [validateCertificate] run in the fixed order failure
    input, expired, not yet valid, principal mismatch, and the verdict is
    the first rejection; a failure input is rejected with its own message,
    and an expired certificate is reported expired whatever its principals. *)
Theorem validate_first_failing_clause (now : Z) (input : cert_or_error)
    (username : jstring) :
  validateCertificate now input username =
    first_failure [failure_clause input; expired_clause now input;
                   not_yet_valid_clause now input;
                   mismatch_clause input username]
  /\ (forall err, input = IsError err ->
        validateCertificate now input username = invalid (err_message err))
  /\ (forall cert, input = IsCert cert ->
        validBefore cert <> 0 -> validBefore cert <= now ->
        validateCertificate now input username = expired_verdict)
  /\ (forall cert, input = IsCert cert ->
        ~ (validBefore cert <> 0 /\ validBefore cert <= now) ->
        validAfter cert <> 0 -> now < validAfter cert ->
        validateCertificate now input username = not_yet_valid_verdict).
Proof.
  split; [apply validateCertificate_clauses|].
  rewrite validateCertificate_clauses.
  repeat split.
  - by intros err ->.
  - intros cert -> Hset Hle. simpl. by rewrite decide_True.
  - intros cert -> Hexp Hset Hlt. simpl.
    rewrite decide_False by done. by rewrite decide_True.
Qed.

(** An expired certificate with a principal mismatch is reported expired. *)
Lemma validate_first_failing_clause_witness :
  validateCertificate 300 (IsCert Examples.admin_root) (js "testuser")
  = expired_verdict.
Proof.
  apply (validate_first_failing_clause 300 (IsCert Examples.admin_root)
           (js "testuser")) with (cert := Examples.admin_root);
    [reflexivity | simpl; lia | simpl; lia].
Defined.

(** C2, as stated, fails: the certificate decoded from a wire form whose
    [valid before] field is 0 is not reported expired although
    [now >= validBefore]. *)
Lemma half_open_window_fails_unset :
  parseSSHCertificate (VBuffer (Wire.ed25519_cert [] 0 0))
    = Normal (IsCert Examples.zero_before)
  /\ ~ half_open_window 100 Examples.zero_before (js "admin").
Proof.
  split; [vm_compute; reflexivity|].
  intros (_ & Hexpired & _).
  assert (Hle : validBefore Examples.zero_before <= 100) by (simpl; lia).
  specialize (Hexpired Hle). vm_compute in Hexpired. discriminate.
Qed.

(** C2 (amended): a bound counts only when it is set (non-zero).  The
    verdict passes the temporal checks iff [validBefore] is unset or
    [now < validBefore], and [validAfter] is unset or [validAfter <= now];
    a set [validBefore <= now] gives "Certificate has expired"; otherwise a
    set [validAfter > now] gives "Certificate is not yet valid".  With both
    bounds set this is the half-open window [validAfter <= now < validBefore]. *)
Theorem validity_window_of_set_bounds (now : Z) (cert : Certificate)
    (username : jstring) :
  let v := validateCertificate now (IsCert cert) username in
  (passes_temporal v = true <->
     (validBefore cert = 0 \/ now < validBefore cert)
     /\ (validAfter cert = 0 \/ validAfter cert <= now))
  /\ (validBefore cert <> 0 -> validBefore cert <= now -> v = expired_verdict)
  /\ (~ (validBefore cert <> 0 /\ validBefore cert <= now) ->
      validAfter cert <> 0 -> now < validAfter cert ->
      v = not_yet_valid_verdict)
  /\ (validBefore cert <> 0 -> validAfter cert <> 0 ->
      (passes_temporal v = true <-> validAfter cert <= now < validBefore cert)).
Proof.
  intros v.
  assert (Hpass : passes_temporal v = true <->
     (validBefore cert = 0 \/ now < validBefore cert)
     /\ (validAfter cert = 0 \/ validAfter cert <= now)).
  { subst v. simpl.
    destruct (truthy_bigint (validBefore cert) && (validBefore cert <=? now)) eqn:E1.
    { apply expired_test in E1. split; [discriminate | lia]. }
    destruct (truthy_bigint (validAfter cert) && (now <? validAfter cert)) eqn:E2.
    { apply not_yet_valid_test in E2. split; [discriminate | lia]. }
    assert (~ (validBefore cert <> 0 /\ validBefore cert <= now))
      by (rewrite <- expired_test; congruence).
    assert (~ (validAfter cert <> 0 /\ now < validAfter cert))
      by (rewrite <- not_yet_valid_test; congruence).
    split; [intros _; lia | intros _].
    repeat match goal with
           | |- passes_temporal (if ?c then _ else _) = _ => destruct c
           end;
      (apply mismatch_verdict_not_temporal || reflexivity). }
  split; [exact Hpass|].
  split; [|split].
  - intros Hset Hle. subst v. simpl.
    by rewrite (proj2 (expired_test now cert)).
  - intros Hexp Hset Hlt. subst v. simpl.
    destruct (truthy_bigint (validBefore cert) && (validBefore cert <=? now)) eqn:E1;
      [by apply expired_test in E1|].
    by rewrite (proj2 (not_yet_valid_test now cert)).
  - intros Hb Ha. rewrite Hpass. lia.
Qed.

(** The amended window at work: past a set [validBefore]. *)
Lemma validity_window_of_set_bounds_witness :
  validateCertificate 250 (IsCert Examples.admin_root) (js "admin") = expired_verdict.
Proof.
  apply (validity_window_of_set_bounds 250 Examples.admin_root (js "admin"));
    simpl; lia.
Defined.

(** C3: inside the validity window the principal check applies only to a
    user certificate with a non-empty principal list: an empty list accepts
    every username, and a user certificate whose non-empty list lacks the
    username is rejected with a reason that names the username and lists
    the principals joined by a comma and a space. *)
Theorem principal_check_in_window (now : Z) (cert : Certificate)
    (username : jstring) :
  validAfter cert <= now < validBefore cert ->
  let v := validateCertificate now (IsCert cert) username in
  (certType cert <> user \/ principals cert = [] -> v = valid_verdict)
  /\ (principals cert = [] -> v = valid_verdict)
  /\ (username ∈ principals cert -> v = valid_verdict)
  /\ (certType cert = user -> principals cert <> [] ->
      username ∉ principals cert ->
      v = invalid (js "Username " ++ dquote ++ username ++ dquote ++
                   js " not in certificate principals: " ++
                   join (js ", ") (principals cert))).
Proof.
  intros Hwindow v. subst v. rewrite validateCertificate_clauses. simpl.
  rewrite !decide_False by lia.
  repeat split.
  - intros Hskip. rewrite decide_False by tauto. reflexivity.
  - intros Hempty. rewrite decide_False by tauto. reflexivity.
  - intros Hin. rewrite decide_False by tauto. reflexivity.
  - intros Huser Hne Hnotin. by rewrite decide_True.
Qed.

Lemma principal_check_in_window_witness :
  validateCertificate 150 (IsCert Examples.admin_root) (js "testuser")
  = invalid (js "Username " ++ dquote ++ js "testuser" ++ dquote ++
             js " not in certificate principals: " ++ js "admin, root").
Proof.
  apply (principal_check_in_window 150 Examples.admin_root (js "testuser"));
    [simpl; lia | reflexivity | discriminate |].
  intros Hin. apply list_elem_of_In in Hin. cbv in Hin.
  intuition discriminate.
Defined.

(** ** Reading inside the buffer *)

Lemma byte_value_range (x : byte) : 0 <= byte_value x < 256.
Proof.
  unfold byte_value. pose proof (Byte.to_N_bounded x) as Hb.
  split; [apply N2Z.is_nonneg | lia].
Qed.

Lemma index_lookup (b : bytes) (p : Z) (k : nat) (x : byte) :
  0 <= p -> drop (Z.to_nat p) b !! k = Some x ->
  Buffer.index b (Int (p + Z.of_nat k)) = Int (byte_value x).
Proof.
  intros Hp Hx. unfold Buffer.index.
  rewrite (proj2 (Z.ltb_ge _ _)) by lia.
  rewrite lookup_drop in Hx.
  replace (Z.to_nat (p + Z.of_nat k)) with (Z.to_nat p + k)%nat by lia.
  by rewrite Hx.
Qed.

Lemma be_value_4 (x0 x1 x2 x3 : byte) :
  be_value [x0; x1; x2; x3] =
  byte_value x0 * 16777216 + byte_value x1 * 65536
  + byte_value x2 * 256 + byte_value x3.
Proof. unfold be_value, byte_value. simpl. lia. Qed.

Lemma be_value_4_range (x0 x1 x2 x3 : byte) :
  0 <= be_value [x0; x1; x2; x3] < 4294967296.
Proof.
  rewrite be_value_4.
  pose proof (byte_value_range x0). pose proof (byte_value_range x1).
  pose proof (byte_value_range x2). pose proof (byte_value_range x3). lia.
Qed.

Lemma drop_four (b : bytes) (p : Z) :
  0 <= p -> p + 4 <= Z.of_nat (List.length b) ->
  exists x0 x1 x2 x3 rest, drop (Z.to_nat p) b = x0 :: x1 :: x2 :: x3 :: rest.
Proof.
  intros Hp Hlen.
  pose proof (length_drop b (Z.to_nat p)) as Hd.
  destruct (drop (Z.to_nat p) b) as [|x0 [|x1 [|x2 [|x3 rest]]]];
    simpl in Hd; try lia.
  by exists x0, x1, x2, x3, rest.
Qed.

Lemma readUInt32BE_at (b : bytes) (p : Z) (x0 x1 x2 x3 : byte) (rest : bytes) :
  0 <= p -> drop (Z.to_nat p) b = x0 :: x1 :: x2 :: x3 :: rest ->
  readUInt32BE b (Int p) = Int (be_value [x0; x1; x2; x3]).
Proof.
  intros Hp Hd.
  assert (H0 : Buffer.index b (Int p) = Int (byte_value x0)).
  { rewrite <- (Z.add_0_r p). apply (index_lookup b p 0); by rewrite ?Hd. }
  assert (H1 : Buffer.index b (Int (p + 1)) = Int (byte_value x1))
    by (apply (index_lookup b p 1); by rewrite ?Hd).
  assert (H2 : Buffer.index b (Int (p + 2)) = Int (byte_value x2))
    by (apply (index_lookup b p 2); by rewrite ?Hd).
  assert (H3 : Buffer.index b (Int (p + 3)) = Int (byte_value x3))
    by (apply (index_lookup b p 3); by rewrite ?Hd).
  unfold readUInt32BE.
  change (Int p +' Int 1) with (Int (p + 1)).
  change (Int p +' Int 2) with (Int (p + 2)).
  change (Int p +' Int 3) with (Int (p + 3)).
  rewrite H0, H1, H2, H3. simpl. by rewrite be_value_4.
Qed.

Lemma readUInt32BE_inside (b : bytes) (p : Z) :
  0 <= p -> p + 4 <= Z.of_nat (List.length b) ->
  readUInt32BE b (Int p) = Int (prefix_at b p)
  /\ 0 <= prefix_at b p < 4294967296.
Proof.
  intros Hp Hlen.
  destruct (drop_four b p Hp Hlen) as (x0 & x1 & x2 & x3 & rest & Hd).
  unfold prefix_at. rewrite Hd. simpl take.
  split; [by eapply readUInt32BE_at | apply be_value_4_range].
Qed.

Lemma slice_inside (b : bytes) (s e : Z) :
  0 <= s <= e -> e <= Z.of_nat (List.length b) ->
  Buffer.slice b (Int s) (Int e) = take (Z.to_nat (e - s)) (drop (Z.to_nat s) b).
Proof.
  intros Hse He. unfold Buffer.slice, Buffer.adjustOffset.
  destruct (Z.eqb_spec s 0) as [->|Hs0], (Z.eqb_spec e 0) as [->|He0];
    try lia; simpl.
  - reflexivity.
  - rewrite (proj2 (Z.ltb_ge e 0)) by lia.
    destruct (Z.ltb_spec e (Z.of_nat (List.length b))).
    + rewrite (proj2 (Z.ltb_lt 0 e)) by lia. by rewrite Z.sub_0_r.
    + rewrite (proj2 (Z.ltb_lt 0 _)) by lia. f_equal. lia.
  - rewrite (proj2 (Z.ltb_ge s 0)), (proj2 (Z.ltb_ge e 0)) by lia.
    destruct (Z.ltb_spec s (Z.of_nat (List.length b))),
      (Z.ltb_spec e (Z.of_nat (List.length b))); try lia.
    + destruct (Z.ltb_spec s e); [reflexivity|].
      by replace (e - s) with 0 by lia.
    + destruct (Z.ltb_spec s (Z.of_nat (List.length b))); try lia.
      f_equal. lia.
    + rewrite Z.ltb_irrefl. replace (e - s) with 0 by lia. reflexivity.
Qed.

(** [readString] at an integer cursor, by cases on the two bound checks. *)
Lemma readString_at (b : bytes) (p : Z) :
  0 <= p ->
  readString b (Int p) =
  if Z.of_nat (List.length b) <? p + 4 then Throw unexpected_end
  else if Z.of_nat (List.length b) <? p + 4 + prefix_at b p then Throw unexpected_end
  else Normal (take (Z.to_nat (prefix_at b p)) (drop (Z.to_nat (p + 4)) b),
               Int (p + 4 + prefix_at b p)).
Proof.
  intros Hp. unfold readString, num_gt, Buffer.length. simpl num_add. simpl num_lt.
  destruct (Z.ltb_spec (Z.of_nat (List.length b)) (p + 4)); [reflexivity|].
  destruct (readUInt32BE_inside b p) as [-> Hrange]; [lia..|].
  simpl.
  destruct (Z.ltb_spec (Z.of_nat (List.length b)) (p + 4 + prefix_at b p));
    [reflexivity|].
  rewrite slice_inside by lia. do 3 f_equal. lia.
Qed.

Lemma readUInt32_at (b : bytes) (p : Z) :
  0 <= p ->
  readUInt32 b (Int p) =
  if Z.of_nat (List.length b) <? p + 4 then Throw unexpected_end
  else Normal (Int (prefix_at b p), Int (p + 4)).
Proof.
  intros Hp. unfold readUInt32, num_gt, Buffer.length. simpl.
  destruct (Z.ltb_spec (Z.of_nat (List.length b)) (p + 4)); [reflexivity|].
  by destruct (readUInt32BE_inside b p) as [-> _]; [lia..|].
Qed.

Lemma readUInt64_at (b : bytes) (p : Z) :
  0 <= p ->
  readUInt64 b (Int p) =
  if Z.of_nat (List.length b) <? p + 8 then Throw unexpected_end
  else Normal (be_value (take 8 (drop (Z.to_nat p) b)), Int (p + 8)).
Proof.
  intros Hp. unfold readUInt64, readBigUInt64BE, num_gt, Buffer.length. simpl.
  destruct (Z.ltb_spec (Z.of_nat (List.length b)) (p + 8)); [reflexivity|].
  rewrite (proj2 (Z.leb_le 0 p)), (proj2 (Z.leb_le (p + 8) _)) by lia.
  reflexivity.
Qed.

(** ** The sub-field loops terminate within their budget *)

Lemma index_nonneg (b : bytes) (i : num) (v : Z) :
  Buffer.index b i = Int v -> 0 <= v.
Proof.
  unfold Buffer.index. destruct i as [z|]; [|discriminate].
  destruct (z <? 0); [discriminate|].
  destruct (b !! Z.to_nat z) as [x|]; [|discriminate].
  intros [= <-]. apply (byte_value_range x).
Qed.

Lemma readUInt32BE_nonneg (b : bytes) (pos : num) (n : Z) :
  readUInt32BE b pos = Int n -> 0 <= n.
Proof.
  unfold readUInt32BE.
  destruct (Buffer.index b pos) as [v0|] eqn:E0; [|discriminate].
  destruct (Buffer.index b (pos +' Int 1)) as [v1|] eqn:E1; [|discriminate].
  destruct (Buffer.index b (pos +' Int 2)) as [v2|] eqn:E2; [|discriminate].
  destruct (Buffer.index b (pos +' Int 3)) as [v3|] eqn:E3; [|discriminate].
  apply index_nonneg in E0, E1, E2, E3. simpl. intros [= <-]. lia.
Qed.

Lemma advance_within_budget (fuel : nat) (b : bytes) (p : Z) (len : num) :
  within_budget (S fuel) b (Int p) ->
  (forall n, len = Int n -> 0 <= n) ->
  within_budget fuel b (Int p +' Int 4 +' len).
Proof.
  intros Hb Hlen. destruct len as [n|]; simpl in *; [|done].
  specialize (Hlen n eq_refl). lia.
Qed.

Lemma principals_loop_returns (fuel : nat) (b : bytes) (pos : num)
    (acc : list jstring) :
  within_budget fuel b pos ->
  exists l, principals_loop fuel b pos acc = Normal l.
Proof.
  revert pos acc. induction fuel as [|fuel IH]; intros pos acc Hb.
  - simpl. destruct pos as [p|]; simpl in *; [|by eexists].
    rewrite (proj2 (Z.ltb_ge _ _)) by lia. by eexists.
  - simpl. destruct (num_lt pos (Buffer.length b)) eqn:Hlt; [|by eexists].
    destruct pos as [p|]; [|discriminate].
    apply IH. apply advance_within_budget; [done|].
    intros n. apply readUInt32BE_nonneg.
Qed.

Lemma parsePrincipals_returns (b : bytes) :
  exists l, parsePrincipals b = Normal l.
Proof.
  unfold parsePrincipals. destruct (num_gt _ _); [|by eexists].
  apply principals_loop_returns. simpl. lia.
Qed.

Lemma options_loop_returns (fuel : nat) (b : bytes) (pos : num)
    (acc : gmap jstring bytes) :
  within_budget fuel b pos ->
  exists m, options_loop fuel b pos acc = Normal m.
Proof.
  revert pos acc. induction fuel as [|fuel IH]; intros pos acc Hb.
  - simpl. destruct pos as [p|]; simpl in *; [|by eexists].
    rewrite (proj2 (Z.ltb_ge _ _)) by lia. by eexists.
  - simpl. destruct (num_lt pos (Buffer.length b)) eqn:Hlt; [|by eexists].
    destruct pos as [p|]; [|discriminate].
    apply IH.
    destruct (readUInt32BE b (Int p)) as [n1|] eqn:E1; [|done].
    apply readUInt32BE_nonneg in E1.
    change (Int p +' Int 4 +' Int n1) with (Int (p + 4 + n1)).
    apply advance_within_budget; [simpl in *; lia|].
    intros n. apply readUInt32BE_nonneg.
Qed.

Lemma parseOptions_returns (b : bytes) :
  exists m, parseOptions b = Normal m.
Proof.
  unfold parseOptions. destruct (num_gt _ _); [|by eexists].
  apply options_loop_returns. simpl. lia.
Qed.

(** ** What the readers can complete with *)

Lemma tame_ret {A : Type} (a : A) : tame (mret a).
Proof. by intros pos. Qed.

Lemma tame_bind {A B : Type} (m : reader A) (k : A -> reader B) :
  tame m -> (forall a, tame (k a)) -> tame (m ≫= k).
Proof.
  intros Hm Hk pos. unfold mbind, reader_bind.
  specialize (Hm pos). destruct (m pos) as [[a pos']|e|]; [|done..].
  apply Hk.
Qed.

Lemma tame_readString (b : bytes) : tame (readString b).
Proof.
  intros pos. unfold readString. unfold cursor_error.
  repeat match goal with |- context [if ?c then _ else _] => destruct c end; auto.
Qed.

Lemma tame_readUInt32 (b : bytes) : tame (readUInt32 b).
Proof.
  intros pos. unfold readUInt32, cursor_error.
  destruct (num_gt _ _); auto.
Qed.

Lemma tame_readUInt64 (b : bytes) : tame (readUInt64 b).
Proof.
  intros pos. unfold readUInt64, readBigUInt64BE, cursor_error.
  destruct (num_gt _ _); [auto|].
  destruct pos as [p|]; [|auto].
  destruct (_ && _); auto.
Qed.

Lemma tame_lift {A : Type} (c : completion A) :
  (exists a, c = Normal a) -> tame (lift c).
Proof. by intros [a ->] pos. Qed.

Create HintDb tame.

#[local] Hint Resolve tame_ret tame_readString tame_readUInt32 tame_readUInt64
  parsePrincipals_returns parseOptions_returns : tame.

Ltac tame_chain :=
  repeat first
    [ apply tame_bind; [|intros ?]
    | apply tame_lift
    | solve [auto with tame] ].

Lemma tame_keyMaterial (b : bytes) (typeStr : jstring) : tame (keyMaterial b typeStr).
Proof.
  unfold keyMaterial.
  repeat match goal with |- context [if ?c then _ else _] => destruct c end;
    tame_chain.
Qed.

Lemma tame_fromSerial (b : bytes) (typeStr : jstring) (nonce : bytes) :
  tame (fromSerial b typeStr nonce).
Proof. unfold fromSerial. tame_chain. Qed.

(** [parseSSHCertificate] returns on every input: no exception escapes the
    [try] block and no loop outruns its budget. *)
Lemma parseSSHCertificate_returns (certBuffer : value) :
  exists r, parseSSHCertificate certBuffer = Normal r.
Proof.
  destruct certBuffer as [b| | | | |]; simpl; try by eexists.
  destruct (Z.of_nat (List.length b) <? 8); [by eexists|].
  assert (Ht : tame (parse_body b)).
  { unfold parse_body. tame_chain; [apply tame_keyMaterial|].
    match goal with |- tame (if ?c then _ else _) => destruct c end;
      tame_chain. }
  specialize (Ht (Int 0)). unfold run.
  destruct (parse_body b (Int 0)) as [[r pos]|e|]; simpl;
    [by eexists | by eexists | destruct Ht].
Qed.

(** [isCertificate] returns a boolean on every input. *)
Lemma isCertificate_returns (data : value) :
  exists r, isCertificate data = Normal r.
Proof.
  destruct data as [b| | | | |]; simpl; try by eexists.
  repeat match goal with |- context [if ?c then _ else _] => destruct c end;
    by eexists.
Qed.

(** ** The sniffer *)

Lemma sniff_rule_16 (data : value) : isCertificate data = Normal (sniff_rule 16 data).
Proof.
  destruct data as [b| | | | |]; try reflexivity.
  unfold isCertificate, sniff_rule, Buffer.length, num_gt.
  change (num_lt (Int ?x) (Int ?y)) with (x <? y).
  rewrite (Z.ltb_antisym 16).
  destruct (Z.leb_spec 16 (Z.of_nat (List.length b))) as [Hlong|Hshort];
    [|reflexivity].
  cbn [negb andb try_catch].
  rewrite (proj2 (Z.ltb_ge _ 4)) by lia.
  destruct (readUInt32BE_inside b 0) as [Hread Hrange]; [lia..|].
  unfold prefix_at in Hread, Hrange.
  change (drop (Z.to_nat 0) b) with b in Hread, Hrange.
  rewrite Hread.
  change (Int 4 +' Int ?x) with (Int (4 + x)).
  change (num_lt (Int ?x) (Int ?y)) with (x <? y).
  rewrite (Z.ltb_antisym _ 64), (Z.ltb_antisym (4 + _)).
  destruct (Z.leb_spec (be_value (take 4 b)) 64); [|reflexivity].
  destruct (Z.leb_spec (4 + be_value (take 4 b)) (Z.of_nat (List.length b)));
    [|reflexivity].
  cbn [negb andb orb try_catch].
  rewrite slice_inside by lia.
  do 4 f_equal. lia.
Qed.

(** C4, as stated, fails: a 15-byte buffer meets every condition of the
    claim and is rejected. *)
Lemma sniffer_rejects_short_cert_like :
  sniff_rule 4 (VBuffer Examples.short_cert_like) = true
  /\ isCertificate (VBuffer Examples.short_cert_like) = Normal false.
Proof. split; reflexivity. Qed.

(** C4 (amended): [isCertificate] returns, never throwing, and returns true
    iff its input is a byte buffer of at least 16 bytes whose first
    big-endian length prefix is at most 64, whose length is at least 4 plus
    that prefix, and whose first field decoded as text contains "-cert-v";
    every other input, a shorter or empty buffer included, gives false. *)
Theorem isCertificate_sniff_rule (data : value) :
  isCertificate data = Normal (sniff_rule 16 data)
  /\ (forall b, data = VBuffer b -> Z.of_nat (List.length b) < 16 ->
        isCertificate data = Normal false)
  /\ (Buffer.isBuffer data = false -> isCertificate data = Normal false).
Proof.
  split; [apply sniff_rule_16|]. split.
  - intros b -> Hshort. rewrite sniff_rule_16. simpl.
    by rewrite (proj2 (Z.leb_gt 16 _)) by lia.
  - by destruct data.
Qed.

Lemma isCertificate_sniff_rule_witness :
  isCertificate (VBuffer []) = Normal false.
Proof.
  apply (isCertificate_sniff_rule (VBuffer [])) with (b := []);
    [reflexivity | simpl; lia].
Defined.

(** ** The codec *)

(** C1: the sub-field loops read their inner length prefixes unchecked.  The
    principals field of this certificate is six bytes, its inner prefix
    claims ten bytes where two are left, and the certificate decodes, the
    two bytes taken for the principal. *)
Theorem inner_overrun_decodes :
  Z.of_nat (List.length Examples.overrun_principals) = 6
  /\ prefix_at Examples.overrun_principals 0 = 10
  /\ parseSSHCertificate (VBuffer Examples.overrun_wire)
     = Normal (IsCert (Examples.sample [js "ab"] 100 200)).
Proof. repeat split; vm_compute; reflexivity. Qed.

(** *** The key-material dispatch *)

Lemma keyMaterial_outside_table (b : bytes) (typeStr : jstring) :
  key_material_fields typeStr = None -> keyMaterial b typeStr = mret false.
Proof.
  unfold key_material_fields, keyMaterial.
  repeat match goal with |- context [startsWith typeStr ?p] =>
    destruct (startsWith typeStr p) end; congruence.
Qed.

Lemma keyMaterial_in_table (b : bytes) (typeStr : jstring) (n : nat)
    {A : Type} (k : bool -> reader A) (pos : num) :
  key_material_fields typeStr = Some n ->
  (keyMaterial b typeStr ≫= k) pos = (skip_fields b n ;; k true) pos.
Proof.
  unfold key_material_fields, keyMaterial.
  repeat match goal with |- context [startsWith typeStr ?p] =>
    destruct (startsWith typeStr p) end;
    intros [= <-]; simpl; unfold mbind, reader_bind, mret, reader_ret;
    repeat match goal with |- context [readString b ?q] =>
      destruct (readString b q) as [[? ?]| |] end; reflexivity.
Qed.

Lemma cursor_error_not_unsupported (e : JsError) (typeStr : jstring) :
  cursor_error e -> e <> unsupported_type typeStr.
Proof. intros [->| ->]; discriminate. Qed.

(** After the key material, decoding yields a certificate or a cursor
    error, never the unsupported-type failure. *)
Lemma decode_from_serial_supported (b : bytes) (typeStr : jstring)
    (nonce : bytes) (n : nat) (pos : num) (other : jstring) :
  decode_from_serial b typeStr nonce n pos
  <> Normal (IsError (unsupported_type other)).
Proof.
  unfold decode_from_serial, run.
  assert (Ht : tame (skip_fields b n ;;
                     cert ← fromSerial b typeStr nonce; mret (IsCert cert))).
  { apply tame_bind.
    - clear. induction n as [|n IH]; simpl; [apply tame_ret|].
      apply tame_bind; [apply tame_readString | by intros _].
    - intros _. apply tame_bind; [apply tame_fromSerial | intros c; apply tame_ret]. }
  specialize (Ht pos).
  destruct ((skip_fields b n ;; cert ← fromSerial b typeStr nonce;
             mret (IsCert cert)) pos) as [[r pos']|e|] eqn:E; simpl.
  - unfold mbind, reader_bind in E.
    destruct (skip_fields b n pos) as [[? ?]| |]; [|discriminate..].
    destruct (fromSerial b typeStr nonce n0) as [[? ?]| |]; [|discriminate..].
    injection E as <- _. discriminate.
  - intros [= He]. by apply (cursor_error_not_unsupported e other).
  - discriminate.
Qed.

(** C8, as stated, fails: the identifier of this eight-byte buffer is
    outside the table, yet decoding fails on the missing nonce, with the
    truncation error. *)
Lemma unsupported_needs_nonce :
  ~ unsupported_iff_outside_table Examples.only_identifier.
Proof.
  intros Hclaim.
  specialize (Hclaim (Wire.text "abcd") (Int 8) eq_refl) as [_ Hfail].
  specialize (Hfail eq_refl). vm_compute in Hfail. discriminate.
Qed.

(** C8 (amended): for every buffer whose identifier and nonce fields are
    read, decode fails with the unsupported-type error naming the identifier
    iff the identifier begins with none of ssh-rsa, ecdsa-sha2-nistp,
    ssh-ed25519, ssh-dss; otherwise it skips exactly 2, 2, 1 or 4 fields
    and goes on from the serial. *)
Theorem unsupported_iff_outside_table_after_nonce (b typeBuffer nonce : bytes)
    (pos1 pos2 : num) :
  readString b (Int 0) = Normal (typeBuffer, pos1) ->
  readString b pos1 = Normal (nonce, pos2) ->
  let identifier := toString_utf8 typeBuffer in
  (parseSSHCertificate (VBuffer b)
     = Normal (IsError (Error (js "Unsupported certificate type: " ++ identifier)))
   <-> key_material_fields identifier = None)
  /\ (forall n, key_material_fields identifier = Some n ->
        parseSSHCertificate (VBuffer b)
        = decode_from_serial b identifier nonce n pos2).
Proof.
  intros Htype Hnonce identifier.
  assert (Hlen : num_lt (Buffer.length b) (Int 8) = false).
  { rewrite readString_at in Htype by lia.
    destruct (Z.ltb_spec (Z.of_nat (List.length b)) (0 + 4)); [discriminate|].
    destruct (Z.ltb_spec (Z.of_nat (List.length b)) (0 + 4 + prefix_at b 0));
      [discriminate|].
    injection Htype as _ <-.
    destruct (readUInt32BE_inside b 0) as [_ Hrange]; [lia..|].
    rewrite readString_at in Hnonce by lia.
    destruct (Z.ltb_spec (Z.of_nat (List.length b)) (0 + 4 + prefix_at b 0 + 4));
      [discriminate|].
    apply Z.ltb_ge. lia. }
  assert (Hparse : forall n, key_material_fields identifier = Some n ->
    parseSSHCertificate (VBuffer b) = decode_from_serial b identifier nonce n pos2).
  { intros n Hn. unfold parseSSHCertificate, parse_body. rewrite Hlen.
    unfold decode_from_serial, run. f_equal.
    unfold mbind at 1 2, reader_bind at 1 2. rewrite Htype, Hnonce.
    fold identifier. by rewrite (keyMaterial_in_table b identifier n). }
  split; [|exact Hparse].
  destruct (key_material_fields identifier) as [n|] eqn:Hn.
  - split; [|discriminate]. rewrite (Hparse n eq_refl).
    intros Hbad. by apply decode_from_serial_supported in Hbad.
  - split; [done|intros _].
    unfold parseSSHCertificate, parse_body. rewrite Hlen.
    unfold run, mbind at 1 2, reader_bind at 1 2. rewrite Htype, Hnonce.
    fold identifier. by rewrite (keyMaterial_outside_table b identifier Hn).
Qed.

Lemma unsupported_iff_outside_table_after_nonce_witness :
  parseSSHCertificate (VBuffer Examples.admin_root_wire)
  = decode_from_serial Examples.admin_root_wire
      (js "ssh-ed25519-cert-v01@openssh.com") (Wire.text "nonce") 1 (Int 45).
Proof.
  apply (unsupported_iff_outside_table_after_nonce Examples.admin_root_wire
           (Wire.text "ssh-ed25519-cert-v01@openssh.com") (Wire.text "nonce")
           (Int 36) (Int 45)); reflexivity.
Defined.

(** *** Trailing bytes *)

Lemma carries_over_ret {A : Type} (a : A) : carries_over (mret a) (mret a).
Proof. intros p a' pos' Hp [= <- <-]. split; [done|by exists p]. Qed.

Lemma carries_over_bind {A B : Type} (m m' : reader A) (k k' : A -> reader B) :
  carries_over m m' -> (forall a, carries_over (k a) (k' a)) ->
  carries_over (m ≫= k) (m' ≫= k').
Proof.
  intros Hm Hk p r pos' Hp. unfold mbind, reader_bind.
  destruct (m (Int p)) as [[a pos1]| |] eqn:E; [|discriminate..].
  destruct (Hm p a pos1 Hp E) as [-> (p1 & -> & Hp1)].
  by apply Hk.
Qed.

Lemma carries_over_lift {A : Type} (c : completion A) :
  carries_over (lift c) (lift c).
Proof.
  intros p a pos' Hp Hc. split; [done|].
  unfold lift in Hc. destruct c; [|discriminate..].
  injection Hc as _ <-. by exists p.
Qed.

Section Trailing.

Variables b extra : bytes.

Lemma take_drop_app (p n : nat) :
  (p + n <= List.length b)%nat ->
  take n (drop p (b ++ extra)) = take n (drop p b).
Proof.
  intros Hlen. rewrite drop_app_le by lia.
  rewrite take_app_le; [done|]. rewrite length_drop. lia.
Qed.

Lemma prefix_at_app (p : Z) :
  0 <= p -> p + 4 <= Z.of_nat (List.length b) ->
  prefix_at (b ++ extra) p = prefix_at b p.
Proof.
  intros Hp Hlen. unfold prefix_at. by rewrite take_drop_app by lia.
Qed.

Lemma carries_over_readString :
  carries_over (readString b) (readString (b ++ extra)).
Proof.
  intros p a pos' Hp. rewrite !readString_at by done.
  rewrite length_app.
  destruct (Z.ltb_spec (Z.of_nat (List.length b)) (p + 4)); [discriminate|].
  destruct (readUInt32BE_inside b p) as [_ Hrange]; [lia..|].
  destruct (Z.ltb_spec (Z.of_nat (List.length b)) (p + 4 + prefix_at b p));
    [discriminate|].
  intros [= <- <-]. rewrite prefix_at_app by lia.
  rewrite !(proj2 (Z.ltb_ge _ _)) by lia.
  rewrite take_drop_app by lia.
  split; [done|]. eexists. split; [done|lia].
Qed.

Lemma carries_over_readUInt32 :
  carries_over (readUInt32 b) (readUInt32 (b ++ extra)).
Proof.
  intros p a pos' Hp. rewrite !readUInt32_at by done.
  rewrite length_app.
  destruct (Z.ltb_spec (Z.of_nat (List.length b)) (p + 4)); [discriminate|].
  intros [= <- <-]. rewrite prefix_at_app by lia.
  rewrite !(proj2 (Z.ltb_ge _ _)) by lia.
  split; [done|]. eexists. split; [done|lia].
Qed.

Lemma carries_over_readUInt64 :
  carries_over (readUInt64 b) (readUInt64 (b ++ extra)).
Proof.
  intros p a pos' Hp. rewrite !readUInt64_at by done.
  rewrite length_app.
  destruct (Z.ltb_spec (Z.of_nat (List.length b)) (p + 8)); [discriminate|].
  intros [= <- <-]. rewrite take_drop_app by lia.
  rewrite !(proj2 (Z.ltb_ge _ _)) by lia.
  split; [done|]. eexists. split; [done|lia].
Qed.

Ltac carry :=
  repeat first
    [ apply carries_over_bind; [|intros ?]
    | apply carries_over_readString
    | apply carries_over_readUInt32
    | apply carries_over_readUInt64
    | apply carries_over_lift
    | apply carries_over_ret ].

Lemma carries_over_keyMaterial (typeStr : jstring) :
  carries_over (keyMaterial b typeStr) (keyMaterial (b ++ extra) typeStr).
Proof.
  unfold keyMaterial.
  repeat match goal with |- context [startsWith typeStr ?p] =>
    destruct (startsWith typeStr p) end; carry.
Qed.

Lemma carries_over_fromSerial (typeStr : jstring) (nonce : bytes) :
  carries_over (fromSerial b typeStr nonce) (fromSerial (b ++ extra) typeStr nonce).
Proof. unfold fromSerial. carry. Qed.

Lemma carries_over_parse_body :
  carries_over (parse_body b) (parse_body (b ++ extra)).
Proof.
  unfold parse_body. carry; [apply carries_over_keyMaterial|].
  match goal with |- carries_over (if ?c then _ else _) _ => destruct c end;
    carry.
Qed.

End Trailing.

(** C10: decode does not ask that the signature end the buffer: a buffer
    that decodes to a certificate still decodes, to the same certificate,
    with any bytes appended. *)
Theorem trailing_bytes_ignored (b extra : bytes) (cert : Certificate) :
  parseSSHCertificate (VBuffer b) = Normal (IsCert cert) ->
  parseSSHCertificate (VBuffer (b ++ extra)) = Normal (IsCert cert).
Proof.
  unfold parseSSHCertificate, Buffer.length. simpl num_lt.
  rewrite length_app.
  destruct (Z.ltb_spec (Z.of_nat (List.length b)) 8); [discriminate|].
  rewrite (proj2 (Z.ltb_ge _ 8)) by lia.
  unfold run.
  destruct (parse_body b (Int 0)) as [[r pos]|e|] eqn:E; simpl; [|discriminate..].
  intros [= ->].
  destruct (carries_over_parse_body b extra 0 _ _ ltac:(lia) E) as [-> _].
  reflexivity.
Qed.

Lemma trailing_bytes_ignored_witness :
  parseSSHCertificate (VBuffer (Examples.admin_root_wire ++ Wire.text "trailing"))
  = Normal (IsCert Examples.admin_root).
Proof.
  apply (trailing_bytes_ignored Examples.admin_root_wire (Wire.text "trailing")).
  vm_compute. reflexivity.
Defined.

(** ** The adapter *)

Section AdapterProperties.

Context {World K : Type} `{!@BaseKey World K}.

Lemma wrap_not_a_buffer (key : keyref K) (certBuffer : value) :
  Buffer.isBuffer certBuffer = false ->
  wrapKeyWithCertificate key certBuffer = (Normal (WrapError not_a_buffer), []).
Proof. intros Hb. unfold wrapKeyWithCertificate. by rewrite Hb. Qed.

Lemma wrap_not_a_certificate (key : keyref K) (certBuffer : value) :
  Buffer.isBuffer certBuffer = true ->
  isCertificate certBuffer = Normal false ->
  wrapKeyWithCertificate key certBuffer
  = (Normal (WrapError not_a_certificate), [CallSniffer certBuffer]).
Proof.
  intros Hb Hs. unfold wrapKeyWithCertificate, call_isCertificate.
  rewrite Hb. simpl. by rewrite Hs.
Qed.

Lemma wrap_decode_failure (key : keyref K) (certBuffer : value) (err : JsError) :
  Buffer.isBuffer certBuffer = true ->
  isCertificate certBuffer = Normal true ->
  parseSSHCertificate certBuffer = Normal (IsError err) ->
  wrapKeyWithCertificate key certBuffer
  = (Normal (WrapError err), [CallSniffer certBuffer; CallCodec certBuffer]).
Proof.
  intros Hb Hs Hp.
  unfold wrapKeyWithCertificate, call_isCertificate, call_parseSSHCertificate.
  rewrite Hb. simpl. rewrite Hs. simpl. by rewrite Hp.
Qed.

Lemma wrap_returns (key : keyref K) (certBuffer : value) :
  exists r, result (wrapKeyWithCertificate key certBuffer) = Normal r.
Proof.
  destruct (Buffer.isBuffer certBuffer) eqn:Hb;
    [|rewrite wrap_not_a_buffer by done; by eexists].
  destruct (isCertificate_returns certBuffer) as [[|] Hs];
    [|rewrite wrap_not_a_certificate by done; by eexists].
  destruct (parseSSHCertificate_returns certBuffer) as [[cert|err] Hp];
    [|rewrite (wrap_decode_failure key certBuffer err) by done; by eexists].
  unfold wrapKeyWithCertificate, call_isCertificate, call_parseSSHCertificate.
  rewrite Hb. simpl. rewrite Hs. simpl. rewrite Hp. simpl.
  destruct key; simpl; by eexists.
Qed.

(** C6: [wrapKeyWithCertificate] returns the not-a-buffer error for
    anything but byte data, the not-a-certificate error when the sniffer
    rejects the buffer, and the codec's own error when decoding fails; it
    always returns and never throws; and in each of these failures the key
    is not consulted: the outcome is the same for every key. *)
Theorem wrap_failures (key : keyref K) (certBuffer : value) :
  (Buffer.isBuffer certBuffer = false ->
     result (wrapKeyWithCertificate key certBuffer)
     = Normal (WrapError (Error (js "Certificate must be a Buffer"))))
  /\ (Buffer.isBuffer certBuffer = true ->
      isCertificate certBuffer = Normal false ->
      result (wrapKeyWithCertificate key certBuffer)
      = Normal (WrapError (Error (js "Buffer does not appear to be a certificate"))))
  /\ (forall err,
        Buffer.isBuffer certBuffer = true ->
        isCertificate certBuffer = Normal true ->
        parseSSHCertificate certBuffer = Normal (IsError err) ->
        result (wrapKeyWithCertificate key certBuffer) = Normal (WrapError err))
  /\ (exists r, result (wrapKeyWithCertificate key certBuffer) = Normal r)
  /\ (forall key' : keyref K,
        Buffer.isBuffer certBuffer = false
        \/ isCertificate certBuffer = Normal false
        \/ (exists err, parseSSHCertificate certBuffer = Normal (IsError err)) ->
        wrapKeyWithCertificate key' certBuffer
        = wrapKeyWithCertificate key certBuffer).
Proof.
  repeat split.
  - intros Hb. by rewrite wrap_not_a_buffer.
  - intros Hb Hs. by rewrite wrap_not_a_certificate.
  - intros err Hb Hs Hp. by rewrite (wrap_decode_failure key certBuffer err).
  - apply wrap_returns.
  - intros key' Hfail.
    destruct (Buffer.isBuffer certBuffer) eqn:Hb;
      [|by rewrite !wrap_not_a_buffer].
    destruct (isCertificate_returns certBuffer) as [[|] Hs];
      [|by rewrite !wrap_not_a_certificate].
    destruct Hfail as [?|[?|[err Hp]]]; [congruence..|].
    by rewrite !(wrap_decode_failure _ certBuffer err).
Qed.

(** C7: a certificate key that [wrapKeyWithCertificate] built holds the key
    it was given, and [sign], [verify], [isPrivateKey], [getPublicSSH] and
    [getPublicPEM] on it complete exactly as the key's own operations do on
    the same arguments, in the same world. *)
Theorem certified_key_delegates (key : keyref K) (certBuffer : value)
    (wrapper : CertificateKey) :
  result (wrapKeyWithCertificate key certBuffer) = Normal (Wrapped wrapper) ->
  key = KObject (baseKey wrapper)
  /\ forall (data signature algo : value) (w : World),
       CertificateKey_sign wrapper data algo w = sign (baseKey wrapper) data algo w
       /\ CertificateKey_verify wrapper data signature algo w
          = verify (baseKey wrapper) data signature algo w
       /\ CertificateKey_isPrivateKey wrapper w = isPrivateKey (baseKey wrapper) w
       /\ (forall method, getPublicSSH (baseKey wrapper) = Some method ->
             CertificateKey_getPublicSSH wrapper algo w = method algo w)
       /\ (forall method, getPublicPEM (baseKey wrapper) = Some method ->
             CertificateKey_getPublicPEM wrapper w = method w).
Proof.
  intros Hwrap. split.
  - destruct (Buffer.isBuffer certBuffer) eqn:Hb;
      [|by rewrite wrap_not_a_buffer in Hwrap].
    destruct (isCertificate_returns certBuffer) as [[|] Hs];
      [|by rewrite wrap_not_a_certificate in Hwrap].
    destruct (parseSSHCertificate_returns certBuffer) as [[cert|err] Hp];
      [|by rewrite (wrap_decode_failure key certBuffer err) in Hwrap].
    revert Hwrap.
    unfold wrapKeyWithCertificate, call_isCertificate, call_parseSSHCertificate.
    rewrite Hb. simpl. rewrite Hs. simpl. rewrite Hp. simpl.
    destruct key; simpl; [|discriminate..]. by intros [= <-].
  - intros data signature algo w. repeat split.
    + intros method Hm. unfold CertificateKey_getPublicSSH. by rewrite Hm.
    + intros method Hm. unfold CertificateKey_getPublicPEM. by rewrite Hm.
Qed.

(** C9: when the sniffer rejects a buffer, [extractCertificateFromData]
    returns null having called the sniffer alone; it calls the codec on no
    input; so a buffer the sniffer accepts and the codec rejects comes back
    from it as [{ certBuffer }], and the codec's error is returned by
    [wrapKeyWithCertificate]. *)
Theorem extract_null_without_codec (data : bytes) (key : keyref K) :
  (isCertificate (VBuffer data) = Normal false ->
     extractCertificateFromData (VBuffer data)
     = (Normal ExtractNull, [CallSniffer (VBuffer data)]))
  /\ (forall input d, CallCodec d ∉ calls (extractCertificateFromData input))
  /\ (forall err,
        isCertificate (VBuffer data) = Normal true ->
        parseSSHCertificate (VBuffer data) = Normal (IsError err) ->
        result (extractCertificateFromData (VBuffer data))
        = Normal (Extracted (VBuffer data))
        /\ result (wrapKeyWithCertificate key (VBuffer data))
           = Normal (WrapError err)).
Proof.
  assert (Hextract : forall verdict,
    isCertificate (VBuffer data) = Normal verdict ->
    extractCertificateFromData (VBuffer data)
    = (Normal (if verdict then Extracted (VBuffer data) else ExtractNull),
       [CallSniffer (VBuffer data)])).
  { intros verdict Hs. unfold extractCertificateFromData, call_isCertificate.
    change (Buffer.isBuffer (VBuffer data)) with true. cbn [negb].
    unfold mbind, traced_bind. rewrite Hs. by destruct verdict. }
  split; [|split].
  - apply Hextract.
  - intros input d. unfold extractCertificateFromData, call_isCertificate.
    destruct (Buffer.isBuffer input); cbn [negb]; [|by apply not_elem_of_nil].
    unfold mbind, traced_bind.
    destruct (isCertificate_returns input) as [[|] ->]; simpl;
      intros Hin; apply list_elem_of_In in Hin; simpl in Hin;
      intuition discriminate.
  - intros err Hs Hp. split.
    + by rewrite (Hextract true Hs).
    + by rewrite (wrap_decode_failure key (VBuffer data) err).
Qed.

End AdapterProperties.

Lemma wrap_failures_witness :
  result (@wrapKeyWithCertificate nat unit Examples.toy_key
            (KObject ()) (VBuffer Examples.plain_key))
  = Normal (WrapError (Error (js "Buffer does not appear to be a certificate"))).
Proof.
  apply (proj1 (proj2 (@wrap_failures nat unit Examples.toy_key
                         (KObject ()) (VBuffer Examples.plain_key))));
    reflexivity.
Defined.

Lemma certified_key_delegates_witness :
  @CertificateKey_sign nat unit Examples.toy_key
    (mkCertificateKey () Examples.admin_root (VBuffer Examples.admin_root_wire)
       (VString (js "ssh-ed25519")) VUndefined)
    (VString (js "data")) VUndefined 0%nat
  = (Normal (VString (js "data")), 1%nat).
Proof.
  assert (Hbuilt :
    result (@wrapKeyWithCertificate nat unit Examples.toy_key (KObject ())
              (VBuffer Examples.admin_root_wire))
    = Normal (Wrapped (mkCertificateKey () Examples.admin_root
                         (VBuffer Examples.admin_root_wire)
                         (VString (js "ssh-ed25519")) VUndefined)))
    by (vm_compute; reflexivity).
  exact (proj1 (proj2 (certified_key_delegates _ _ _ Hbuilt)
                  (VString (js "data")) VUndefined VUndefined 0%nat)).
Defined.

Lemma extract_null_without_codec_witness :
  extractCertificateFromData (VBuffer Examples.plain_key)
  = (Normal ExtractNull, [CallSniffer (VBuffer Examples.plain_key)])
  /\ result (extractCertificateFromData (VBuffer Examples.identifier_only_cert))
     = Normal (Extracted (VBuffer Examples.identifier_only_cert))
  /\ result (@wrapKeyWithCertificate nat unit Examples.toy_key (KObject ())
               (VBuffer Examples.identifier_only_cert))
     = Normal (WrapError unexpected_end).
Proof.
  split.
  - apply (@extract_null_without_codec nat unit Examples.toy_key
             Examples.plain_key (KObject ())). reflexivity.
  - apply (@extract_null_without_codec nat unit Examples.toy_key
             Examples.identifier_only_cert (KObject ())); reflexivity.
Defined.

(** ** The cursor stays inside the buffer *)

Lemma bind_returns {A B : Type} (m : reader A) (k : A -> reader B)
    (pos pos' : num) (r : B) :
  (m ≫= k) pos = Normal (r, pos') ->
  exists a pos1, m pos = Normal (a, pos1) /\ k a pos1 = Normal (r, pos').
Proof.
  unfold mbind, reader_bind.
  destruct (m pos) as [[a pos1]| |]; [|discriminate..].
  intros Hk. by exists a, pos1.
Qed.

Lemma safe_ret (b : bytes) {A : Type} (Q : A -> Prop) (a : A) :
  Q a -> safe b Q (mret a).
Proof. intros Hq p Hp. split; [done|]. exists p. split; [done|lia]. Qed.

Lemma safe_bind (b : bytes) {A B : Type} (Q1 : A -> Prop) (Q2 : B -> Prop)
    (m : reader A) (k : A -> reader B) :
  safe b Q1 m -> (forall a, Q1 a -> safe b Q2 (k a)) -> safe b Q2 (m ≫= k).
Proof.
  intros Hm Hk p Hp. unfold mbind, reader_bind.
  specialize (Hm p Hp). destruct (m (Int p)) as [[a pos1]|e|]; [|done..].
  destruct Hm as (Ha & p1 & -> & Hp1).
  specialize (Hk a Ha p1 ltac:(lia)).
  destruct (k a (Int p1)) as [[r pos2]|e|]; [|done..].
  destruct Hk as (Hr & p2 & -> & Hp2).
  split; [done|]. exists p2. split; [done|lia].
Qed.

Lemma safe_weaken (b : bytes) {A : Type} (Q Q' : A -> Prop) (m : reader A) :
  (forall a, Q a -> Q' a) -> safe b Q m -> safe b Q' m.
Proof.
  intros Hq Hm p Hp. specialize (Hm p Hp).
  destruct (m (Int p)) as [[a pos1]|e|]; [|done..].
  destruct Hm as [Ha Hpos]. split; [by apply Hq|done].
Qed.

Lemma safe_readString (b : bytes) : safe b (fun _ => True) (readString b).
Proof.
  intros p Hp. rewrite readString_at by lia.
  destruct (Z.ltb_spec (Z.of_nat (List.length b)) (p + 4)); [done|].
  destruct (readUInt32BE_inside b p) as [_ Hrange]; [lia..|].
  destruct (Z.ltb_spec (Z.of_nat (List.length b)) (p + 4 + prefix_at b p));
    [done|].
  split; [done|]. eexists. split; [done|lia].
Qed.

Lemma safe_readUInt32 (b : bytes) : safe b (fun _ => True) (readUInt32 b).
Proof.
  intros p Hp. rewrite readUInt32_at by lia.
  destruct (Z.ltb_spec (Z.of_nat (List.length b)) (p + 4)); [done|].
  split; [done|]. eexists. split; [done|lia].
Qed.

Lemma safe_readUInt64 (b : bytes) : safe b (fun _ => True) (readUInt64 b).
Proof.
  intros p Hp. rewrite readUInt64_at by lia.
  destruct (Z.ltb_spec (Z.of_nat (List.length b)) (p + 8)); [done|].
  split; [done|]. eexists. split; [done|lia].
Qed.

Lemma safe_lift (b : bytes) {A : Type} (c : completion A) :
  (exists a, c = Normal a) -> safe b (fun _ => True) (lift c).
Proof.
  intros [a ->] p Hp. simpl. split; [done|]. exists p. split; [done|lia].
Qed.

Ltac safe_chain :=
  repeat first
    [ apply safe_readString
    | apply safe_readUInt32
    | apply safe_readUInt64
    | apply safe_lift; first [apply parsePrincipals_returns | apply parseOptions_returns]
    | apply safe_ret; done
    | eapply safe_bind; [|intros ? _] ].

Lemma safe_keyMaterial (b : bytes) (typeStr : jstring) :
  safe b (fun supported => supported = true <-> key_material_fields typeStr <> None)
       (keyMaterial b typeStr).
Proof.
  unfold keyMaterial, key_material_fields.
  repeat match goal with |- context [startsWith typeStr ?p] =>
    destruct (startsWith typeStr p) end;
    repeat first
      [ apply safe_ret; split; congruence
      | eapply safe_bind; [apply safe_readString|intros ? _] ].
Qed.

Lemma safe_fromSerial (b : bytes) (typeStr : jstring) (nonce0 : bytes) :
  safe b (fun cert => type cert = typeStr /\ nonce cert = nonce0)
       (fromSerial b typeStr nonce0).
Proof. unfold fromSerial. safe_chain. Qed.

(** The body of the [try] block returns a certificate that carries the
    decoded identifier, or the unsupported-type error for it. *)
Lemma safe_parse_body (b : bytes) :
  safe b (fun r => match r with
                   | IsCert cert => key_material_fields (type cert) <> None
                   | IsError e =>
                       exists typeStr, e = unsupported_type typeStr
                                       /\ key_material_fields typeStr = None
                   end)
       (parse_body b).
Proof.
  unfold parse_body.
  eapply safe_bind; [apply safe_readString|intros typeBuffer _].
  eapply safe_bind; [apply safe_readString|intros nonce0 _].
  eapply safe_bind; [apply safe_keyMaterial|intros supported Hs].
  destruct supported.
  - eapply safe_bind; [apply safe_fromSerial|intros cert [Htype _]].
    apply safe_ret. rewrite Htype. by apply Hs.
  - apply safe_ret. eexists. split; [done|].
    destruct (key_material_fields (toString_utf8 typeBuffer)); [|done].
    assert (false = true) by (by apply Hs). discriminate.
Qed.

Lemma parseSSHCertificate_buffer (b : bytes) :
  8 <= Z.of_nat (List.length b) ->
  parseSSHCertificate (VBuffer b)
  = try_catch (run (parse_body b) (Int 0)) (fun err => Normal (IsError err)).
Proof.
  intros Hlen. unfold parseSSHCertificate, Buffer.length. simpl num_lt.
  by rewrite (proj2 (Z.ltb_ge _ 8)) by lia.
Qed.

Lemma parseSSHCertificate_unread (certBuffer : value) :
  rejected_unread certBuffer = true ->
  parseSSHCertificate certBuffer = Normal (IsError invalid_buffer).
Proof.
  destruct certBuffer as [b| | | | |]; try done.
  unfold parseSSHCertificate, rejected_unread, Buffer.length. simpl num_lt.
  by intros ->.
Qed.


(** ** Decoding reads a prefix of the buffer, and all of that prefix *)

Section Prefix.

Variables b1 b2 : bytes.

Lemma survives_ret {A : Type} (a : A) : survives b1 b2 (mret a) (mret a).
Proof. by intros p a' p' Hp [= <- <-] _. Qed.

Lemma survives_lift {A : Type} (c : completion A) :
  survives b1 b2 (lift c) (lift c).
Proof. by intros p a p' Hp Hc _. Qed.

Lemma survives_bind {A B : Type} (m m' : reader A) (k k' : A -> reader B) :
  survives b1 b2 m m' -> safe (b1 ++ b2) (fun _ => True) m ->
  (forall a, survives b1 b2 (k a) (k' a)) ->
  (forall a, safe (b1 ++ b2) (fun _ => True) (k a)) ->
  survives b1 b2 (m ≫= k) (m' ≫= k').
Proof.
  intros Hm Hsafe Hk Hksafe p r p' Hp Hrun Hin.
  apply bind_returns in Hrun as (a & pos1 & Hm1 & Hk1).
  specialize (Hsafe p Hp). rewrite Hm1 in Hsafe.
  destruct Hsafe as (_ & p1 & -> & Hp1).
  specialize (Hksafe a p1 ltac:(lia)). rewrite Hk1 in Hksafe.
  destruct Hksafe as (_ & p2 & [= <-] & Hp2).
  unfold mbind, reader_bind.
  rewrite (Hm p a p1) by (done || lia). apply Hk; [lia|done..].
Qed.

Lemma survives_readString :
  survives b1 b2 (readString (b1 ++ b2)) (readString b1).
Proof.
  intros p a p' Hp Hrun Hin. rewrite readString_at in Hrun by lia.
  destruct (Z.ltb_spec (Z.of_nat (List.length (b1 ++ b2))) (p + 4));
    [discriminate|].
  destruct (readUInt32BE_inside (b1 ++ b2) p) as [_ Hrange]; [lia..|].
  destruct (Z.ltb_spec (Z.of_nat (List.length (b1 ++ b2)))
              (p + 4 + prefix_at (b1 ++ b2) p)); [discriminate|].
  injection Hrun as <- <-.
  assert (Hfour : p + 4 <= Z.of_nat (List.length b1)) by lia.
  rewrite prefix_at_app in * by lia.
  rewrite readString_at by lia.
  rewrite !(proj2 (Z.ltb_ge _ _)) by lia.
  by rewrite take_drop_app by lia.
Qed.

Lemma survives_readUInt32 :
  survives b1 b2 (readUInt32 (b1 ++ b2)) (readUInt32 b1).
Proof.
  intros p a p' Hp Hrun Hin. rewrite readUInt32_at in Hrun by lia.
  destruct (Z.ltb_spec (Z.of_nat (List.length (b1 ++ b2))) (p + 4));
    [discriminate|].
  injection Hrun as <- <-.
  rewrite prefix_at_app by lia. rewrite readUInt32_at by lia.
  by rewrite !(proj2 (Z.ltb_ge _ _)) by lia.
Qed.

Lemma survives_readUInt64 :
  survives b1 b2 (readUInt64 (b1 ++ b2)) (readUInt64 b1).
Proof.
  intros p a p' Hp Hrun Hin. rewrite readUInt64_at in Hrun by lia.
  destruct (Z.ltb_spec (Z.of_nat (List.length (b1 ++ b2))) (p + 8));
    [discriminate|].
  injection Hrun as <- <-.
  rewrite take_drop_app by lia. rewrite readUInt64_at by lia.
  by rewrite !(proj2 (Z.ltb_ge _ _)) by lia.
Qed.

Lemma safe_true {A : Type} (Q : A -> Prop) (m : reader A) :
  safe (b1 ++ b2) Q m -> safe (b1 ++ b2) (fun _ => True) m.
Proof. by apply safe_weaken. Qed.

Ltac survive :=
  repeat first
    [ apply survives_readString
    | apply survives_readUInt32
    | apply survives_readUInt64
    | apply survives_lift
    | apply survives_ret
    | apply survives_bind; [| solve [safe_chain] | intros ? | intros ?; solve [safe_chain]] ].

Lemma survives_keyMaterial (typeStr : jstring) :
  survives b1 b2 (keyMaterial (b1 ++ b2) typeStr) (keyMaterial b1 typeStr).
Proof.
  unfold keyMaterial.
  repeat match goal with |- context [startsWith typeStr ?p] =>
    destruct (startsWith typeStr p) end; survive.
Qed.

Lemma survives_fromSerial (typeStr : jstring) (nonce0 : bytes) :
  survives b1 b2 (fromSerial (b1 ++ b2) typeStr nonce0)
                 (fromSerial b1 typeStr nonce0).
Proof. unfold fromSerial. survive. Qed.

Lemma safe_dispatch (b : bytes) (typeStr : jstring) (nonce0 : bytes) :
  safe b (fun _ => True)
    (keyMaterial b typeStr ≫= fun supported : bool =>
       if supported
       then fromSerial b typeStr nonce0 ≫= fun cert => mret (IsCert cert)
       else mret (IsError (unsupported_type typeStr))).
Proof.
  eapply safe_bind; [apply safe_keyMaterial|intros supported _].
  destruct supported; [|by apply safe_ret].
  eapply safe_bind; [apply safe_fromSerial|intros cert _]. by apply safe_ret.
Qed.

Lemma survives_parse_body :
  survives b1 b2 (parse_body (b1 ++ b2)) (parse_body b1).
Proof.
  unfold parse_body.
  apply survives_bind;
    [apply survives_readString | apply safe_readString
    | intros typeBuffer | intros typeBuffer].
  - apply survives_bind;
      [apply survives_readString | apply safe_readString
      | intros nonce0 | intros nonce0; apply safe_dispatch].
    apply survives_bind;
      [apply survives_keyMaterial | eapply safe_true, safe_keyMaterial
      | intros supported | intros supported].
    + destruct supported; [|apply survives_ret].
      apply survives_bind;
        [apply survives_fromSerial | eapply safe_true, safe_fromSerial
        | intros cert; apply survives_ret | intros cert; by apply safe_ret].
    + destruct supported; [|by apply safe_ret].
      eapply safe_bind; [apply safe_fromSerial|intros cert _]. by apply safe_ret.
  - eapply safe_bind; [apply safe_readString|intros nonce0 _].
    apply safe_dispatch.
Qed.

End Prefix.

(** What a successful run of the [try] block tells about the buffer. *)
Lemma parse_body_cert_inv (b : bytes) (cert : Certificate) (pos : num) :
  parse_body b (Int 0) = Normal (IsCert cert, pos) ->
  exists n, pos = Int n
    /\ 16 <= n <= Z.of_nat (List.length b)
    /\ 4 + prefix_at b 0 <= Z.of_nat (List.length b)
    /\ type cert = toString_utf8 (take (Z.to_nat (prefix_at b 0)) (drop 4 b)).
Proof.
  intros Hrun. unfold parse_body in Hrun.
  apply bind_returns in Hrun as (typeBuffer & pos1 & Htype & Hrun).
  apply bind_returns in Hrun as (nonce0 & pos2 & Hnonce & Hrun).
  apply bind_returns in Hrun as (supported & pos3 & Hkey & Hrun).
  rewrite readString_at in Htype by lia.
  destruct (Z.ltb_spec (Z.of_nat (List.length b)) (0 + 4)); [discriminate|].
  destruct (readUInt32BE_inside b 0) as [_ Hrange0]; [lia..|].
  destruct (Z.ltb_spec (Z.of_nat (List.length b)) (0 + 4 + prefix_at b 0));
    [discriminate|].
  injection Htype as <- <-.
  rewrite readString_at in Hnonce by lia.
  destruct (Z.ltb_spec (Z.of_nat (List.length b)) (0 + 4 + prefix_at b 0 + 4));
    [discriminate|].
  destruct (readUInt32BE_inside b (0 + 4 + prefix_at b 0)) as [_ Hrange1];
    [lia..|].
  destruct (Z.ltb_spec (Z.of_nat (List.length b))
              (0 + 4 + prefix_at b 0 + 4 + prefix_at b (0 + 4 + prefix_at b 0)));
    [discriminate|].
  injection Hnonce as <- <-.
  pose proof (safe_keyMaterial b
    (toString_utf8 (take (Z.to_nat (prefix_at b 0)) (drop (Z.to_nat (0 + 4)) b)))
    (0 + 4 + prefix_at b 0 + 4 + prefix_at b (0 + 4 + prefix_at b 0))
    ltac:(lia)) as Hsafe.
  rewrite Hkey in Hsafe. destruct Hsafe as (_ & p3 & -> & Hp3).
  destruct supported; [|discriminate].
  apply bind_returns in Hrun as (cert' & pos4 & Hserial & Hret).
  injection Hret as -> ->.
  match type of Hserial with fromSerial _ ?t ?n0 _ = _ =>
    pose proof (safe_fromSerial b t n0 p3 ltac:(lia)) as Hsafe end.
  rewrite Hserial in Hsafe. destruct Hsafe as ([Ht _] & p4 & -> & Hp4).
  unfold fromSerial in Hserial.
  apply bind_returns in Hserial as (serial0 & pos5 & H64 & Hrest).
  rewrite readUInt64_at in H64 by lia.
  destruct (Z.ltb_spec (Z.of_nat (List.length b)) (p3 + 8)); [discriminate|].
  exists p4. repeat split; try lia; [|exact Ht].
  injection H64 as _ <-.
  match type of Hrest with ?m (Int (p3 + 8)) = _ =>
    assert (Hsafe : safe b (fun _ => True) m) by safe_chain end.
  specialize (Hsafe (p3 + 8) ltac:(lia)). rewrite Hrest in Hsafe.
  destruct Hsafe as (_ & p4' & [= <-] & ?). lia.
Qed.

Lemma decoded_length_inv (b : bytes) (n : Z) :
  decoded_length b = Some n ->
  exists cert, parse_body b (Int 0) = Normal (IsCert cert, Int n).
Proof.
  unfold decoded_length.
  destruct (parse_body b (Int 0)) as [[[cert|e] [m|]]| |]; try discriminate.
  intros [= ->]. by exists cert.
Qed.

(** X2: a buffer that decodes is read up to an offset [n], the end of the
    signature, and decoding depends on those [n] bytes alone: every prefix
    of at least [n] bytes decodes to the same certificate, every prefix of
    8 to [n - 1] bytes fails with "Unexpected end of certificate", and a
    shorter one with "Invalid certificate buffer". *)
Theorem decode_reads_exactly (b : bytes) (n : Z) :
  decoded_length b = Some n ->
  exists cert,
    parseSSHCertificate (VBuffer b) = Normal (IsCert cert)
    /\ 16 <= n <= Z.of_nat (List.length b)
    /\ (forall k : nat, n <= Z.of_nat k ->
          parseSSHCertificate (VBuffer (take k b)) = Normal (IsCert cert))
    /\ (forall k : nat, 8 <= Z.of_nat k < n ->
          parseSSHCertificate (VBuffer (take k b))
          = Normal (IsError (Error (js "Unexpected end of certificate"))))
    /\ (forall k : nat, Z.of_nat k < 8 ->
          parseSSHCertificate (VBuffer (take k b))
          = Normal (IsError (Error (js "Invalid certificate buffer")))).
Proof.
  intros Hn. apply decoded_length_inv in Hn as [cert Hrun]. exists cert.
  destruct (parse_body_cert_inv b cert _ Hrun) as (n' & [= <-] & Hbound & _).
  assert (Hprefix : forall k : nat, n <= Z.of_nat k ->
    parseSSHCertificate (VBuffer (take k b)) = Normal (IsCert cert)).
  { intros k Hk.
    assert (Hlen : n <= Z.of_nat (List.length (take k b)))
      by (rewrite length_take; lia).
    rewrite parseSSHCertificate_buffer by lia. unfold run.
    rewrite (survives_parse_body (take k b) (drop k b) 0 (IsCert cert) n);
      rewrite ?take_drop; done || lia. }
  split; [|split; [done|split; [done|split]]].
  - rewrite <- (Hprefix (List.length b)) by lia. by rewrite firstn_all.
  - intros k Hk.
    assert (Hlen : Z.of_nat (List.length (take k b)) = Z.of_nat k)
      by (rewrite length_take; lia).
    rewrite parseSSHCertificate_buffer by lia. unfold run.
    pose proof (safe_parse_body (take k b) 0 ltac:(lia)) as Hsafe.
    destruct (parse_body (take k b) (Int 0)) as [[r pos]|e|] eqn:Hshort;
      [|by subst e|done].
    destruct Hsafe as (_ & p' & -> & Hp').
    destruct (carries_over_parse_body (take k b) (drop k b) 0 r (Int p')
                ltac:(lia) Hshort) as [Hfull _].
    rewrite take_drop, Hrun in Hfull. injection Hfull as _ ->. lia.
  - intros k Hk. apply parseSSHCertificate_unread. simpl.
    apply Z.ltb_lt. rewrite length_take. lia.
Qed.

Lemma decode_reads_exactly_witness :
  exists cert,
    parseSSHCertificate (VBuffer (Examples.admin_root_wire ++ Wire.text "junk"))
      = Normal (IsCert cert)
    /\ 16 <= 157 <= Z.of_nat (List.length (Examples.admin_root_wire ++ Wire.text "junk"))
    /\ (forall k : nat, 157 <= Z.of_nat k ->
          parseSSHCertificate
            (VBuffer (take k (Examples.admin_root_wire ++ Wire.text "junk")))
          = Normal (IsCert cert))
    /\ (forall k : nat, 8 <= Z.of_nat k < 157 ->
          parseSSHCertificate
            (VBuffer (take k (Examples.admin_root_wire ++ Wire.text "junk")))
          = Normal (IsError (Error (js "Unexpected end of certificate"))))
    /\ (forall k : nat, Z.of_nat k < 8 ->
          parseSSHCertificate
            (VBuffer (take k (Examples.admin_root_wire ++ Wire.text "junk")))
          = Normal (IsError (Error (js "Invalid certificate buffer")))).
Proof.
  apply (decode_reads_exactly (Examples.admin_root_wire ++ Wire.text "junk") 157).
  vm_compute. reflexivity.
Defined.

Lemma parseSSHCertificate_cert_inv (b : bytes) (cert : Certificate) :
  parseSSHCertificate (VBuffer b) = Normal (IsCert cert) ->
  exists n, parse_body b (Int 0) = Normal (IsCert cert, Int n).
Proof.
  unfold parseSSHCertificate, Buffer.length. simpl num_lt.
  destruct (Z.ltb_spec (Z.of_nat (List.length b)) 8); [discriminate|].
  unfold run.
  destruct (parse_body b (Int 0)) as [[r pos]|e|] eqn:Hrun; cbn [try_catch];
    [|discriminate..].
  intros [= ->].
  destruct (parse_body_cert_inv b cert pos Hrun) as (n & -> & _). by exists n.
Qed.

(** X3: on a buffer that decodes, the sniffer's answer is read off the
    decoded certificate: [isCertificate] is true iff the identifier field is
    at most 64 bytes long and the decoded [type] contains "-cert-v".  (The
    codec itself asks for neither.) *)
Theorem sniffer_on_decodable (b : bytes) (cert : Certificate) :
  parseSSHCertificate (VBuffer b) = Normal (IsCert cert) ->
  isCertificate (VBuffer b)
  = Normal ((be_value (take 4 b) <=? 64) && includes (type cert) (js "-cert-v")).
Proof.
  intros Hparse. apply parseSSHCertificate_cert_inv in Hparse as [n Hrun].
  destruct (parse_body_cert_inv b cert _ Hrun) as (n' & [= <-] & Hn & Hfit & Htype).
  rewrite sniff_rule_16. unfold sniff_rule. rewrite Htype.
  change (prefix_at b 0) with (be_value (take 4 b)) in *.
  rewrite (proj2 (Z.leb_le 16 _)) by lia.
  rewrite (proj2 (Z.leb_le (4 + _) _)) by lia.
  by rewrite andb_true_r.
Qed.

Lemma sniffer_on_decodable_witness :
  isCertificate (VBuffer Examples.admin_root_wire)
  = Normal ((be_value (take 4 Examples.admin_root_wire) <=? 64)
            && includes (type Examples.admin_root) (js "-cert-v")).
Proof.
  apply (sniffer_on_decodable Examples.admin_root_wire Examples.admin_root).
  vm_compute. reflexivity.
Defined.

(** ** Decoding the wire layout *)

Lemma byte_value_byte_of (z : Z) : byte_value (Wire.byte_of z) = z mod 256.
Proof.
  unfold byte_value, Wire.byte_of.
  pose proof (Z.mod_pos_bound z 256 ltac:(lia)) as Hz.
  destruct (Byte.of_N (Z.to_N (z mod 256))) as [x|] eqn:Hx.
  - apply Byte.to_of_N in Hx. rewrite Hx. lia.
  - apply Byte.of_N_None_iff in Hx. lia.
Qed.

Lemma be_value_u32 (n : Z) : 0 <= n < 4294967296 -> be_value (Wire.u32 n) = n.
Proof.
  intros Hn. unfold Wire.u32. rewrite be_value_4, !byte_value_byte_of.
  change 16777216 with (256 * 256 * 256). change 65536 with (256 * 256).
  rewrite <- !Z.div_div by lia.
  Z.div_mod_to_equations. lia.
Qed.

Lemma be_value_u32_mod (n : Z) :
  0 <= n -> be_value (Wire.u32 n) = n mod 4294967296.
Proof.
  intros Hn. unfold Wire.u32. rewrite be_value_4, !byte_value_byte_of.
  change 16777216 with (256 * 256 * 256). change 65536 with (256 * 256).
  change 4294967296 with (256 * 256 * 256 * 256).
  rewrite <- !Z.div_div by lia.
  Z.div_mod_to_equations. lia.
Qed.

Lemma be_value_app (a c : bytes) :
  be_value (a ++ c) = be_value a * 256 ^ Z.of_nat (List.length c) + be_value c.
Proof.
  unfold be_value. rewrite fold_left_app.
  generalize (fold_left (fun acc x => acc * 256 + Z.of_N (Byte.to_N x)) a 0).
  induction c as [|x c IH] using rev_ind; intros v.
  - simpl. lia.
  - rewrite !fold_left_app. simpl. rewrite IH, length_app. simpl.
    rewrite Nat2Z.inj_add, Z.pow_add_r by lia.
    change (256 ^ Z.of_nat 1) with 256. lia.
Qed.

Lemma be_value_u64 (n : Z) :
  0 <= n < 18446744073709551616 -> be_value (Wire.u64 n) = n.
Proof.
  intros Hn. unfold Wire.u64. rewrite be_value_app.
  change (256 ^ Z.of_nat (List.length (Wire.u32 n))) with 4294967296.
  pose proof (Z.div_pos n 4294967296 ltac:(lia) ltac:(lia)).
  pose proof (Z.div_lt_upper_bound n 4294967296 4294967296 ltac:(lia) ltac:(lia)).
  rewrite be_value_u32 by lia.
  pose proof (be_value_u32_mod n ltac:(lia)) as Hlow. rewrite Hlow.
  Z.div_mod_to_equations. lia.
Qed.

Lemma length_field (x : bytes) :
  List.length (Wire.field x) = (4 + List.length x)%nat.
Proof. reflexivity. Qed.

Lemma take_drop_middle (pre x post : bytes) :
  take (List.length x) (drop (List.length pre) (pre ++ x ++ post)) = x.
Proof. by rewrite drop_app_length, take_app_length. Qed.

Section ReadLayout.

Variable b : bytes.

Lemma readString_field (pre x post : bytes) :
  b = pre ++ Wire.field x ++ post -> Layout.fits x ->
  readString b (Int (Z.of_nat (List.length pre)))
  = Normal (x, Int (Z.of_nat (List.length (pre ++ Wire.field x)))).
Proof.
  intros -> Hfits. unfold Layout.fits in Hfits.
  rewrite readString_at by lia.
  assert (Hprefix : prefix_at (pre ++ Wire.field x ++ post)
                      (Z.of_nat (List.length pre)) = Z.of_nat (List.length x)).
  { unfold prefix_at. rewrite Nat2Z.id, drop_app_length.
    change (take 4 (Wire.field x ++ post))
      with (Wire.u32 (Z.of_nat (List.length x))).
    apply be_value_u32. lia. }
  rewrite Hprefix, !length_app, length_field.
  rewrite !(proj2 (Z.ltb_ge _ _)) by lia.
  do 2 f_equal; [|f_equal; lia].
  rewrite Nat2Z.id.
  replace (Z.to_nat (Z.of_nat (List.length pre) + 4))
    with (List.length (pre ++ Wire.u32 (Z.of_nat (List.length x))))
    by (rewrite length_app; simpl; lia).
  replace (pre ++ Wire.field x ++ post)
    with ((pre ++ Wire.u32 (Z.of_nat (List.length x))) ++ x ++ post)
    by (unfold Wire.field; by rewrite <- !app_assoc).
  apply take_drop_middle.
Qed.

Lemma readUInt64_field (pre post : bytes) (n : Z) :
  b = pre ++ Wire.u64 n ++ post -> 0 <= n < 18446744073709551616 ->
  readUInt64 b (Int (Z.of_nat (List.length pre)))
  = Normal (n, Int (Z.of_nat (List.length (pre ++ Wire.u64 n)))).
Proof.
  intros -> Hn. rewrite readUInt64_at by lia.
  rewrite !length_app. change (List.length (Wire.u64 n)) with 8%nat.
  rewrite !(proj2 (Z.ltb_ge _ _)) by lia.
  rewrite Nat2Z.id. change 8%nat with (List.length (Wire.u64 n)) at 1.
  rewrite take_drop_middle, be_value_u64 by done.
  do 3 f_equal. lia.
Qed.

Lemma readUInt32_field (pre post : bytes) (n : Z) :
  b = pre ++ Wire.u32 n ++ post -> 0 <= n < 4294967296 ->
  readUInt32 b (Int (Z.of_nat (List.length pre)))
  = Normal (Int n, Int (Z.of_nat (List.length (pre ++ Wire.u32 n)))).
Proof.
  intros -> Hn. rewrite readUInt32_at by lia.
  rewrite !length_app. change (List.length (Wire.u32 n)) with 4%nat.
  rewrite !(proj2 (Z.ltb_ge _ _)) by lia.
  unfold prefix_at. rewrite Nat2Z.id.
  change 4%nat with (List.length (Wire.u32 n)) at 1.
  rewrite take_drop_middle, be_value_u32 by done.
  do 3 f_equal. lia.
Qed.

End ReadLayout.

Lemma readUInt32BE_field (pre x post : bytes) :
  Layout.fits x ->
  readUInt32BE (pre ++ Wire.field x ++ post) (Int (Z.of_nat (List.length pre)))
  = Int (Z.of_nat (List.length x)).
Proof.
  intros Hfits. unfold Layout.fits in Hfits.
  destruct (readUInt32BE_inside (pre ++ Wire.field x ++ post)
              (Z.of_nat (List.length pre))) as [-> _];
    [lia | rewrite !length_app, length_field; lia |].
  f_equal. unfold prefix_at. rewrite Nat2Z.id, drop_app_length.
  change (take 4 (Wire.field x ++ post))
    with (Wire.u32 (Z.of_nat (List.length x))).
  apply be_value_u32. lia.
Qed.

Lemma slice_field (pre x post : bytes) :
  Buffer.slice (pre ++ Wire.field x ++ post)
    (Int (Z.of_nat (List.length pre) + 4))
    (Int (Z.of_nat (List.length pre) + 4 + Z.of_nat (List.length x)))
  = x.
Proof.
  rewrite slice_inside
    by (rewrite ?length_app, ?length_field; lia).
  replace (Z.to_nat (Z.of_nat (List.length pre) + 4 + Z.of_nat (List.length x)
                     - (Z.of_nat (List.length pre) + 4)))
    with (List.length x) by lia.
  replace (Z.to_nat (Z.of_nat (List.length pre) + 4))
    with (List.length (pre ++ Wire.u32 (Z.of_nat (List.length x))))
    by (rewrite length_app; simpl; lia).
  replace (pre ++ Wire.field x ++ post)
    with ((pre ++ Wire.u32 (Z.of_nat (List.length x))) ++ x ++ post)
    by (unfold Wire.field; by rewrite <- !app_assoc).
  apply take_drop_middle.
Qed.

Lemma principals_loop_names (l : list bytes) :
  Forall Layout.fits l ->
  forall (fuel : nat) (pre : bytes) (acc : list jstring),
    (List.length (Layout.names l) < fuel)%nat ->
    principals_loop fuel (pre ++ Layout.names l)
      (Int (Z.of_nat (List.length pre))) acc
    = Normal (acc ++ List.map toString_utf8 l).
Proof.
  induction 1 as [|x l Hx Hl IH]; intros fuel pre acc Hfuel.
  - simpl. rewrite app_nil_r, app_nil_r.
    destruct fuel; simpl; by rewrite Z.ltb_irrefl.
  - change (Layout.names (x :: l)) with (Wire.field x ++ Layout.names l) in *.
    destruct fuel as [|fuel]; [simpl in Hfuel; lia|].
    cbn [principals_loop]. unfold Buffer.length. cbn [num_lt].
    rewrite (proj2 (Z.ltb_lt _ _))
      by (rewrite !length_app, length_field; lia).
    rewrite readUInt32BE_field by done. cbn [num_add].
    rewrite slice_field.
    replace (Z.of_nat (List.length pre) + 4 + Z.of_nat (List.length x))
      with (Z.of_nat (List.length (pre ++ Wire.field x)))
      by (rewrite length_app, length_field; lia).
    rewrite (app_assoc pre).
    rewrite IH by (rewrite length_app, length_field in Hfuel; lia).
    by rewrite <- app_assoc.
Qed.

Lemma parsePrincipals_layout (l : list bytes) :
  Forall Layout.fits l ->
  parsePrincipals (Layout.names l) = Normal (List.map toString_utf8 l).
Proof.
  intros Hl. unfold parsePrincipals, num_gt, Buffer.length. cbn [num_lt].
  destruct (Z.ltb_spec 0 (Z.of_nat (List.length (Layout.names l)))) as [Hpos|Hzero].
  - apply (principals_loop_names l Hl _ [] []). lia.
  - destruct l as [|x l]; [reflexivity|].
    change (Layout.names (x :: l)) with (Wire.field x ++ Layout.names l) in Hzero.
    rewrite length_app, length_field in Hzero. lia.
Qed.

(** X4: a principals field made of back-to-back length-prefixed names
    decodes to exactly those names, in order. *)
Theorem parsePrincipals_names (l : list bytes) :
  Forall Layout.fits l ->
  parsePrincipals (Layout.names l) = Normal (List.map toString_utf8 l).
Proof. apply parsePrincipals_layout. Qed.

Lemma parsePrincipals_names_witness :
  parsePrincipals (Layout.names [Wire.text "admin"; Wire.text "root"])
  = Normal [js "admin"; js "root"].
Proof.
  apply (parsePrincipals_names [Wire.text "admin"; Wire.text "root"]).
  repeat constructor; unfold Layout.fits; simpl; lia.
Defined.

Lemma options_loop_pairs (l : list (bytes * bytes)) :
  Forall (fun e => Layout.fits (fst e) /\ Layout.fits (snd e)) l ->
  forall (fuel : nat) (pre : bytes) (acc : gmap jstring bytes),
    (List.length (Layout.options l) < fuel)%nat ->
    options_loop fuel (pre ++ Layout.options l)
      (Int (Z.of_nat (List.length pre))) acc
    = Normal (fold_left
                (fun object entry => <[toString_utf8 (fst entry) := snd entry]> object)
                l acc).
Proof.
  induction 1 as [|[name data] l [Hname Hdata] Hl IH]; intros fuel pre acc Hfuel.
  - simpl. rewrite app_nil_r.
    destruct fuel; simpl; by rewrite Z.ltb_irrefl.
  - change (Layout.options ((name, data) :: l))
      with ((Wire.field name ++ Wire.field data) ++ Layout.options l) in *.
    simpl fst in *. simpl snd in *.
    rewrite !length_app, !length_field in Hfuel.
    destruct fuel as [|fuel]; [lia|].
    cbn [options_loop]. unfold Buffer.length. cbn [num_lt].
    rewrite (proj2 (Z.ltb_lt _ _))
      by (rewrite !length_app, !length_field; lia).
    rewrite <- (app_assoc (Wire.field name)).
    rewrite readUInt32BE_field by done. cbn [num_add].
    rewrite slice_field.
    replace (Z.of_nat (List.length pre) + 4 + Z.of_nat (List.length name))
      with (Z.of_nat (List.length (pre ++ Wire.field name)))
      by (rewrite length_app, length_field; lia).
    rewrite (app_assoc pre (Wire.field name)).
    rewrite readUInt32BE_field by done. cbn [num_add].
    rewrite slice_field.
    replace (Z.of_nat (List.length (pre ++ Wire.field name)) + 4
             + Z.of_nat (List.length data))
      with (Z.of_nat (List.length ((pre ++ Wire.field name) ++ Wire.field data)))
      by (rewrite !length_app, !length_field; lia).
    rewrite (app_assoc (pre ++ Wire.field name)).
    rewrite IH by lia. reflexivity.
Qed.

Lemma parseOptions_pairs (l : list (bytes * bytes)) :
  Forall (fun e => Layout.fits (fst e) /\ Layout.fits (snd e)) l ->
  parseOptions (Layout.options l) = Normal (Layout.options_object l).
Proof.
  intros Hl. unfold parseOptions, num_gt, Buffer.length. cbn [num_lt].
  destruct (Z.ltb_spec 0 (Z.of_nat (List.length (Layout.options l)))) as [Hpos|Hzero].
  - apply (options_loop_pairs l Hl _ [] ∅). lia.
  - destruct l as [|[name data] l]; [reflexivity|].
    change (Layout.options ((name, data) :: l))
      with ((Wire.field name ++ Wire.field data) ++ Layout.options l) in Hzero.
    rewrite !length_app, !length_field in Hzero. lia.
Qed.

Lemma options_object_last_wins (l : list (bytes * bytes)) :
  Layout.options_object l
  = list_to_map (reverse (List.map (fun e => (toString_utf8 (fst e), snd e)) l)).
Proof.
  unfold Layout.options_object.
  induction l as [|e l IH] using rev_ind; [reflexivity|].
  rewrite fold_left_app, List.map_app, reverse_app. simpl. by rewrite IH.
Qed.



(** *** Stepping the cursor over the layout *)

Section Steps.

Variable b : bytes.
Context {B : Type}.

Lemma step_readString (pre x post : bytes) (k : bytes -> reader B) :
  b = pre ++ Wire.field x ++ post -> Layout.fits x ->
  (readString b ≫= k) (Int (Z.of_nat (List.length pre)))
  = k x (Int (Z.of_nat (List.length (pre ++ Wire.field x)))).
Proof.
  intros Hcut Hfits. unfold mbind, reader_bind.
  by rewrite (readString_field b pre x post).
Qed.

Lemma step_readUInt64 (pre post : bytes) (n : Z) (k : Z -> reader B) :
  b = pre ++ Wire.u64 n ++ post -> 0 <= n < 18446744073709551616 ->
  (readUInt64 b ≫= k) (Int (Z.of_nat (List.length pre)))
  = k n (Int (Z.of_nat (List.length (pre ++ Wire.u64 n)))).
Proof.
  intros Hcut Hn. unfold mbind, reader_bind.
  by rewrite (readUInt64_field b pre post n).
Qed.

Lemma step_readUInt32 (pre post : bytes) (n : Z) (k : num -> reader B) :
  b = pre ++ Wire.u32 n ++ post -> 0 <= n < 4294967296 ->
  (readUInt32 b ≫= k) (Int (Z.of_nat (List.length pre)))
  = k (Int n) (Int (Z.of_nat (List.length (pre ++ Wire.u32 n)))).
Proof.
  intros Hcut Hn. unfold mbind, reader_bind.
  by rewrite (readUInt32_field b pre post n).
Qed.

Lemma step_lift {A : Type} (a : A) (k : A -> reader B) (pos : num) :
  (lift (Normal a) ≫= k) pos = k a pos.
Proof. reflexivity. Qed.

Lemma step_skip_fields (l : list bytes) :
  Forall Layout.fits l ->
  forall (pre post : bytes) (k : unit -> reader B),
    b = pre ++ Layout.names l ++ post ->
    (skip_fields b (List.length l) ≫= k) (Int (Z.of_nat (List.length pre)))
    = k () (Int (Z.of_nat (List.length (pre ++ Layout.names l)))).
Proof.
  induction 1 as [|x l Hx Hl IH]; intros pre post k Hcut.
  - simpl. by rewrite app_nil_r.
  - change (Layout.names (x :: l)) with (Wire.field x ++ Layout.names l) in *.
    rewrite <- app_assoc in Hcut.
    transitivity ((skip_fields b (List.length l) ≫= k)
                    (Int (Z.of_nat (List.length (pre ++ Wire.field x))))).
    + simpl skip_fields. unfold mbind, reader_bind.
      by rewrite (readString_field b pre x _ Hcut Hx).
    + rewrite (app_assoc pre) in Hcut.
      rewrite (IH _ _ k Hcut). by rewrite (app_assoc pre).
Qed.

End Steps.

Ltac next_cut H :=
  match type of H with
  | _ = ?pre ++ ?item ++ ?rest => rewrite (app_assoc pre item rest) in H
  end.

Ltac over_field H :=
  match type of H with
  | ?b = ?pre ++ Wire.field ?x ++ ?post =>
      rewrite (step_readString b pre x post _ H) by done;
      cbv beta; next_cut H
  end.

Ltac over_u64 H :=
  match type of H with
  | ?b = ?pre ++ Wire.u64 ?n ++ ?post =>
      rewrite (step_readUInt64 b pre post n _ H) by done;
      cbv beta; next_cut H
  end.

Ltac over_u32 H :=
  match type of H with
  | ?b = ?pre ++ Wire.u32 ?n ++ ?post =>
      rewrite (step_readUInt32 b pre post n _ H) by done;
      cbv beta; next_cut H
  end.

Lemma fromSerial_layout (c : Layout.fields) (b pre : bytes) :
  Layout.well_sized c ->
  b = pre
      ++ Wire.u64 (Layout.f_serial c)
      ++ Wire.u32 (Layout.f_certType c)
      ++ Wire.field (Layout.f_keyId c)
      ++ Wire.field (Layout.names (Layout.f_principals c))
      ++ Wire.u64 (Layout.f_validAfter c)
      ++ Wire.u64 (Layout.f_validBefore c)
      ++ Wire.field (Layout.options (Layout.f_critical c))
      ++ Wire.field (Layout.options (Layout.f_extensions c))
      ++ Wire.field (Layout.f_reserved c)
      ++ Wire.field (Layout.f_signatureKey c)
      ++ Wire.field (Layout.f_signature c) ++ [] ->
  fromSerial b (toString_utf8 (Layout.f_type c)) (Layout.f_nonce c)
    (Int (Z.of_nat (List.length pre)))
  = Normal (Layout.decoded c, Int (Z.of_nat (List.length b))).
Proof.
  intros (_ & _ & _ & Hs & Hct & Hid & Hp & Hpf & Hva & Hvb & Hco & Hcf
          & Heo & Hef & Hr & Hsk & Hsg) Hcut.
  unfold fromSerial.
  over_u64 Hcut. over_u32 Hcut. over_field Hcut. over_field Hcut.
  rewrite parsePrincipals_layout by done. rewrite step_lift.
  over_u64 Hcut. over_u64 Hcut.
  over_field Hcut. rewrite parseOptions_pairs by done. rewrite step_lift.
  over_field Hcut. rewrite parseOptions_pairs by done. rewrite step_lift.
  over_field Hcut. over_field Hcut. over_field Hcut.
  rewrite app_nil_r in Hcut. rewrite <- Hcut. reflexivity.
Qed.

Lemma parse_body_layout (c : Layout.fields) :
  Layout.well_sized c ->
  key_material_fields (toString_utf8 (Layout.f_type c))
    = Some (List.length (Layout.f_key c)) ->
  parse_body (Layout.certificate c) (Int 0)
  = Normal (IsCert (Layout.decoded c),
            Int (Z.of_nat (List.length (Layout.certificate c)))).
Proof.
  intros Hsize Hkey.
  pose proof Hsize as (Ht & Hn & Hk & _).
  set (b := Layout.certificate c).
  assert (Hcut : b = [] ++ Wire.field (Layout.f_type c)
                      ++ Wire.field (Layout.f_nonce c)
                      ++ Layout.names (Layout.f_key c)
                      ++ Wire.u64 (Layout.f_serial c)
                      ++ Wire.u32 (Layout.f_certType c)
                      ++ Wire.field (Layout.f_keyId c)
                      ++ Wire.field (Layout.names (Layout.f_principals c))
                      ++ Wire.u64 (Layout.f_validAfter c)
                      ++ Wire.u64 (Layout.f_validBefore c)
                      ++ Wire.field (Layout.options (Layout.f_critical c))
                      ++ Wire.field (Layout.options (Layout.f_extensions c))
                      ++ Wire.field (Layout.f_reserved c)
                      ++ Wire.field (Layout.f_signatureKey c)
                      ++ Wire.field (Layout.f_signature c) ++ []).
  { subst b. unfold Layout.certificate.
    by rewrite (app_nil_r (Wire.field (Layout.f_signature c))). }
  unfold parse_body.
  change (Int 0) with (Int (Z.of_nat (List.length (@nil byte)))).
  over_field Hcut. cbv zeta. over_field Hcut.
  rewrite (keyMaterial_in_table b _ _ _ _ Hkey).
  match type of Hcut with
  | _ = ?pre ++ _ ++ ?post =>
      rewrite (step_skip_fields b (Layout.f_key c) Hk pre post _ Hcut)
  end.
  next_cut Hcut.
  unfold mbind, reader_bind.
  by rewrite (fromSerial_layout c b _ Hsize Hcut).
Qed.

Lemma parseSSHCertificate_layout (c : Layout.fields) :
  Layout.well_sized c ->
  key_material_fields (toString_utf8 (Layout.f_type c))
    = Some (List.length (Layout.f_key c)) ->
  parseSSHCertificate (VBuffer (Layout.certificate c))
  = Normal (IsCert (Layout.decoded c)).
Proof.
  intros Hsize Hkey. pose proof (parse_body_layout c Hsize Hkey) as Hrun.
  destruct (parse_body_cert_inv _ _ _ Hrun) as (n & [= <-] & Hn & _).
  rewrite parseSSHCertificate_buffer by lia. unfold run. by rewrite Hrun.
Qed.


Lemma rsa_fields_well_sized : Layout.well_sized rsa_fields.
Proof.
  unfold Layout.well_sized, Layout.fits. simpl.
  repeat split; try lia; repeat constructor; simpl; lia.
Qed.


(** ** More on the validator *)

Lemma valid_first_failure (clauses : list (option jstring)) :
  valid (first_failure clauses) = true <-> Forall (fun c => c = None) clauses.
Proof.
  induction clauses as [|[why|] clauses IH]; simpl.
  - split; [intros _; constructor|done].
  - split; [discriminate|]. intros Hall. inversion Hall; discriminate.
  - rewrite IH. split; [by constructor|]. intros Hall. by inversion Hall.
Qed.

Lemma reason_first_failure (clauses : list (option jstring)) :
  valid (first_failure clauses) = true <-> reason (first_failure clauses) = None.
Proof. induction clauses as [|[why|] clauses IH]; simpl; done. Qed.

Lemma valid_characterised (now : Z) (input : cert_or_error) (username : jstring) :
  valid (validateCertificate now input username) = true <->
  exists cert, input = IsCert cert
    /\ (validBefore cert = 0 \/ now < validBefore cert)
    /\ (validAfter cert = 0 \/ validAfter cert <= now)
    /\ (certType cert <> user \/ principals cert = []
        \/ username ∈ principals cert).
Proof.
  rewrite validateCertificate_clauses.
  rewrite valid_first_failure, !Forall_cons, Forall_nil.
  destruct input as [cert|e]; simpl.
  - split.
    + intros (_ & Hexp & Hnot & Hmis & _). exists cert.
      repeat case_decide; try discriminate.
      split; [done|].
      destruct (decide (username ∈ principals cert)),
        (decide (principals cert = [])), (decide (certType cert = user));
        repeat split; try lia; tauto.
    + intros (cert' & [= <-] & Hb & Ha & Hp).
      rewrite !decide_False by (try lia; tauto). done.
  - split; [intros [? _]; discriminate | intros (cert & ? & _); discriminate].
Qed.

(** X7: the verdict is valid exactly when no bound that is set excludes
    [now] and the certificate is not a user certificate, or lists no
    principals, or lists the username; a failure input is never valid; and
    the verdict carries a reason exactly when it is invalid. *)
Theorem valid_iff (now : Z) (input : cert_or_error) (username : jstring) :
  let v := validateCertificate now input username in
  (valid v = true <->
     exists cert, input = IsCert cert
       /\ (validBefore cert = 0 \/ now < validBefore cert)
       /\ (validAfter cert = 0 \/ validAfter cert <= now)
       /\ (certType cert <> user \/ principals cert = []
           \/ username ∈ principals cert))
  /\ (valid v = true <-> reason v = None).
Proof.
  intros v. subst v. split; [apply valid_characterised|].
  rewrite validateCertificate_clauses. apply reason_first_failure.
Qed.

Lemma valid_iff_witness :
  valid (validateCertificate 150 (IsCert Examples.admin_root) (js "root")) = true.
Proof.
  apply (proj1 (valid_iff 150 (IsCert Examples.admin_root) (js "root"))).
  exists Examples.admin_root. repeat split; simpl; try lia.
  right; right. apply list_elem_of_In. simpl. tauto.
Defined.

(** X8: for a fixed certificate and username, an expired verdict stays
    expired at every later time, a not-yet-valid verdict holds at every
    earlier time, and the times at which the verdict is valid form an
    interval. *)
Theorem verdicts_over_time (cert : Certificate) (username : jstring)
    (t1 t2 t3 : Z) :
  t1 <= t2 <= t3 ->
  (validateCertificate t1 (IsCert cert) username = expired_verdict ->
   validateCertificate t2 (IsCert cert) username = expired_verdict)
  /\ (validateCertificate t2 (IsCert cert) username = not_yet_valid_verdict ->
      validateCertificate t1 (IsCert cert) username = not_yet_valid_verdict)
  /\ (valid (validateCertificate t1 (IsCert cert) username) = true ->
      valid (validateCertificate t3 (IsCert cert) username) = true ->
      valid (validateCertificate t2 (IsCert cert) username) = true).
Proof.
  intros Ht. rewrite !validateCertificate_clauses. simpl.
  repeat split.
  - repeat case_decide; (discriminate || (exfalso; lia) || done).
  - repeat case_decide; (discriminate || (exfalso; lia) || done).
  - repeat case_decide; simpl; try done; try (exfalso; lia).
Qed.

Lemma verdicts_over_time_witness :
  validateCertificate 250 (IsCert Examples.admin_root) (js "admin")
  = expired_verdict.
Proof.
  apply (verdicts_over_time Examples.admin_root (js "admin") 200 250 300);
    [lia|reflexivity].
Defined.

(** *** What a rejection says *)

Lemma startsWith_nil (s : jstring) : startsWith s [] = true.
Proof. by destruct s. Qed.

Lemma startsWith_app_r (s x c : jstring) :
  startsWith s x = true -> startsWith (s ++ c) x = true.
Proof.
  revert s. induction x as [|p x IH]; intros s;
    [intros _; apply startsWith_nil|].
  destruct s as [|q s]; [done|]. simpl.
  rewrite !andb_true_iff. intros [Hq Hs]. split; [done|by apply IH].
Qed.

Lemma startsWith_self (x : jstring) : startsWith x x = true.
Proof. induction x as [|p x IH]; [done|]. simpl. by rewrite Z.eqb_refl. Qed.

Lemma includes_app_r (s x c : jstring) :
  includes s x = true -> includes (s ++ c) x = true.
Proof.
  induction s as [|q s IH].
  - destruct x; [intros _; destruct c; simpl; by rewrite ?startsWith_nil
                |simpl; discriminate].
  - cbn [includes app]. rewrite !orb_true_iff.
    intros [Hs|Hs]; [left; by apply (startsWith_app_r (q :: s))|right; by apply IH].
Qed.

Lemma includes_app_l (a s x : jstring) :
  includes s x = true -> includes (a ++ s) x = true.
Proof.
  intros Hs. induction a as [|q a IH]; [done|].
  cbn [includes app]. rewrite IH. apply orb_true_r.
Qed.

Lemma includes_self (x : jstring) : includes x x = true.
Proof. destruct x; simpl; [done|]. by rewrite Z.eqb_refl, startsWith_self. Qed.

Lemma includes_middle (a x c : jstring) : includes (a ++ x ++ c) x = true.
Proof. apply includes_app_l, includes_app_r, includes_self. Qed.

Lemma includes_join (sep : jstring) (ps : list jstring) (p : jstring) :
  p ∈ ps -> includes (join sep ps) p = true.
Proof.
  induction ps as [|x [|y ps] IH]; intros Hin.
  - by apply elem_of_nil in Hin.
  - apply list_elem_of_singleton in Hin as ->. apply includes_self.
  - change (join sep (x :: y :: ps)) with (x ++ sep ++ join sep (y :: ps)).
    apply elem_of_cons in Hin as [->|Hin].
    + apply includes_app_r, includes_self.
    + apply includes_app_l, includes_app_l. by apply IH.
Qed.

Lemma principal_mismatch_contents (username : jstring) (ps : list jstring) :
  includes (principal_mismatch username ps) (js "principals") = true
  /\ includes (principal_mismatch username ps) username = true
  /\ forall p, p ∈ ps -> includes (principal_mismatch username ps) p = true.
Proof.
  unfold principal_mismatch. split; [|split].
  - do 4 apply includes_app_l. by apply includes_app_r.
  - do 2 apply includes_app_l. apply includes_app_r, includes_self.
  - intros p Hp. do 5 apply includes_app_l. by apply includes_join.
Qed.



(** ** From the bytes to the verdict *)

Lemma certType_of_user (n : Z) : certType_of (Int n) = user <-> n = 1.
Proof.
  destruct n as [|[p|p|]|p]; simpl; split; (done || discriminate || idtac).
  all: destruct p; discriminate.
Qed.



(** ** The sniffer on a plain-text identifier *)

Lemma toString_utf8_ascii (bs : bytes) :
  Forall (fun x => byte_value x < 128) bs ->
  toString_utf8 bs = List.map byte_value bs.
Proof.
  unfold toString_utf8. induction 1 as [|x bs Hx Hbs IH]; [reflexivity|].
  cbn [Utf8.decode Utf8.needed Utf8.start List.map].
  unfold Utf8.lead. fold (byte_value x).
  rewrite (proj2 (Z.ltb_lt _ 128)) by done.
  cbn [app]. f_equal. exact IH.
Qed.

(** X11: on a buffer of at least 16 bytes that starts with a
    length-prefixed identifier of 7-bit characters, [isCertificate] is true
    iff the identifier is at most 64 bytes long and its characters contain
    "-cert-v"; nothing after the identifier matters. *)
Theorem sniffer_on_identifier (x rest : bytes) :
  Layout.fits x ->
  Forall (fun c => byte_value c < 128) x ->
  16 <= Z.of_nat (List.length (Wire.field x ++ rest)) ->
  isCertificate (VBuffer (Wire.field x ++ rest))
  = Normal ((Z.of_nat (List.length x) <=? 64)
            && includes (List.map byte_value x) (js "-cert-v")).
Proof.
  intros Hfits Hascii Hlen. rewrite sniff_rule_16. unfold sniff_rule.
  change (take 4 (Wire.field x ++ rest))
    with (Wire.u32 (Z.of_nat (List.length x))).
  unfold Layout.fits in Hfits. rewrite be_value_u32 by lia.
  rewrite (proj2 (Z.leb_le 16 _)) by done.
  rewrite (proj2 (Z.leb_le (4 + _) _))
    by (rewrite length_app, length_field; lia).
  rewrite andb_true_r. cbn [andb]. f_equal. f_equal.
  rewrite Nat2Z.id.
  change (drop 4 (Wire.field x ++ rest)) with (x ++ rest).
  by rewrite take_app_length, toString_utf8_ascii.
Qed.

Lemma sniffer_on_identifier_witness :
  isCertificate
    (VBuffer (Wire.field (Wire.text "ssh-ed25519") ++ Wire.text "0123456789"))
  = Normal ((Z.of_nat (List.length (Wire.text "ssh-ed25519")) <=? 64)
            && includes (List.map byte_value (Wire.text "ssh-ed25519"))
                 (js "-cert-v")).
Proof.
  apply (sniffer_on_identifier (Wire.text "ssh-ed25519") (Wire.text "0123456789")).
  - unfold Layout.fits. simpl. lia.
  - repeat constructor.
  - simpl. lia.
Defined.

(** ** More on the adapter *)

Section AdapterMore.

Context {World K : Type} `{!@BaseKey World K}.

Lemma wrap_decoded (key : keyref K) (certBuffer : value) (cert : Certificate) :
  Buffer.isBuffer certBuffer = true ->
  isCertificate certBuffer = Normal true ->
  parseSSHCertificate certBuffer = Normal (IsCert cert) ->
  wrapKeyWithCertificate key certBuffer
  = (match new_CertificateKey key cert certBuffer with
     | Normal wrapper => Normal (Wrapped wrapper)
     | Throw err => Normal (WrapError err)
     | Timeout => Timeout
     end,
     [CallSniffer certBuffer; CallCodec certBuffer]).
Proof.
  intros Hb Hs Hp.
  unfold wrapKeyWithCertificate, call_isCertificate, call_parseSSHCertificate.
  rewrite Hb. cbn [negb]. unfold mbind, traced_bind, traced_try.
  rewrite Hs. cbn [negb]. rewrite Hp. unfold traced_lift.
  by destruct (new_CertificateKey key cert certBuffer).
Qed.

(** The four ways [wrapKeyWithCertificate] can go. *)
Lemma wrap_cases (key : keyref K) (certBuffer : value) :
  (Buffer.isBuffer certBuffer = false
   /\ wrapKeyWithCertificate key certBuffer = (Normal (WrapError not_a_buffer), []))
  \/ (Buffer.isBuffer certBuffer = true
      /\ isCertificate certBuffer = Normal false
      /\ wrapKeyWithCertificate key certBuffer
         = (Normal (WrapError not_a_certificate), [CallSniffer certBuffer]))
  \/ (exists err,
        Buffer.isBuffer certBuffer = true
        /\ isCertificate certBuffer = Normal true
        /\ parseSSHCertificate certBuffer = Normal (IsError err)
        /\ wrapKeyWithCertificate key certBuffer
           = (Normal (WrapError err),
              [CallSniffer certBuffer; CallCodec certBuffer]))
  \/ (exists cert,
        Buffer.isBuffer certBuffer = true
        /\ isCertificate certBuffer = Normal true
        /\ parseSSHCertificate certBuffer = Normal (IsCert cert)
        /\ wrapKeyWithCertificate key certBuffer
           = (match new_CertificateKey key cert certBuffer with
              | Normal wrapper => Normal (Wrapped wrapper)
              | Throw err => Normal (WrapError err)
              | Timeout => Timeout
              end,
              [CallSniffer certBuffer; CallCodec certBuffer])).
Proof.
  destruct (Buffer.isBuffer certBuffer) eqn:Hb;
    [|left; split; [done|by apply wrap_not_a_buffer]].
  destruct (isCertificate_returns certBuffer) as [[|] Hs];
    [|right; left; repeat split; [done|by apply wrap_not_a_certificate]].
  destruct (parseSSHCertificate_returns certBuffer) as [[cert|err] Hp].
  - right; right; right. exists cert. repeat split; [done..|].
    by apply wrap_decoded.
  - right; right; left. exists err. repeat split; [done..|].
    by apply wrap_decode_failure.
Qed.

(** X12: [wrapKeyWithCertificate] returns a certificate key exactly when it
    is given a key object and a buffer that the sniffer accepts and the
    codec decodes; the certificate key then holds that key, the decoded
    certificate and the very buffer it was given, and copies the key's
    [type] and [comment]. *)
Theorem wrap_success_iff (key : keyref K) (certBuffer : value)
    (wrapper : CertificateKey) :
  result (wrapKeyWithCertificate key certBuffer) = Normal (Wrapped wrapper)
  <-> exists k cert,
        key = KObject k
        /\ Buffer.isBuffer certBuffer = true
        /\ isCertificate certBuffer = Normal true
        /\ parseSSHCertificate certBuffer = Normal (IsCert cert)
        /\ baseKey wrapper = k
        /\ getCertificate wrapper = cert
        /\ getCertificateBuffer wrapper = certBuffer
        /\ ck_type wrapper = key_type k
        /\ ck_comment wrapper = key_comment k.
Proof.
  split.
  - intros Hwrap.
    destruct (wrap_cases key certBuffer)
      as [[_ Heq]|[(_ & _ & Heq)|[(err & _ & _ & _ & Heq)|(cert & Hb & Hs & Hp & Heq)]]];
      rewrite Heq in Hwrap; try discriminate.
    unfold result in Hwrap. cbn [fst] in Hwrap.
    destruct key as [k| |]; cbn [new_CertificateKey] in Hwrap; try discriminate.
    injection Hwrap as <-. by exists k, cert.
  - intros (k & cert & -> & Hb & Hs & Hp & Hk & Hc & Hbuf & Ht & Hcm).
    rewrite (wrap_decoded _ _ cert) by done. unfold result. cbn.
    destruct wrapper. cbn in *. by subst.
Qed.

(** X13: the calls [wrapKeyWithCertificate] makes: none for a non-buffer,
    else the sniffer once, and then the codec once exactly when the sniffer
    accepted, both on the buffer it was given, whatever the key. *)
Theorem wrap_calls (key : keyref K) (certBuffer : value) :
  calls (wrapKeyWithCertificate key certBuffer)
  = if Buffer.isBuffer certBuffer
    then CallSniffer certBuffer
         :: match isCertificate certBuffer with
            | Normal true => [CallCodec certBuffer]
            | _ => []
            end
    else [].
Proof.
  destruct (wrap_cases key certBuffer)
    as [[Hb Heq]|[(Hb & Hs & Heq)|[(err & Hb & Hs & _ & Heq)|(cert & Hb & Hs & _ & Heq)]]];
    by rewrite Heq, Hb, ?Hs.
Qed.

(** X14: given [null] or [undefined] for the key and a buffer that decodes,
    [wrapKeyWithCertificate] returns (and does not throw) a [TypeError]. *)
Theorem wrap_without_key (key : keyref K) (certBuffer : value)
    (cert : Certificate) :
  key = KNull \/ key = KUndefined ->
  Buffer.isBuffer certBuffer = true ->
  isCertificate certBuffer = Normal true ->
  parseSSHCertificate certBuffer = Normal (IsCert cert) ->
  exists err, result (wrapKeyWithCertificate key certBuffer) = Normal (WrapError err)
              /\ err_name err = js "TypeError".
Proof.
  intros Hkey Hb Hs Hp. rewrite (wrap_decoded key certBuffer cert) by done.
  destruct Hkey as [-> | ->]; eexists; by split.
Qed.

Lemma extract_three_way_aux (data : value) :
  exists accepted, isCertificate data = Normal accepted
    /\ result (extractCertificateFromData data)
       = Normal (if negb (Buffer.isBuffer data)
                 then ExtractError data_not_a_buffer
                 else if accepted then Extracted data else ExtractNull).
Proof.
  destruct (isCertificate_returns data) as [accepted Hs]. exists accepted.
  split; [done|]. unfold extractCertificateFromData, call_isCertificate.
  destruct (Buffer.isBuffer data); cbn [negb]; [|reflexivity].
  unfold mbind, traced_bind. rewrite Hs. by destruct accepted.
Qed.

(** X15: what [extractCertificateFromData] returns: an error exactly for a
    non-buffer, null exactly for a buffer the sniffer rejects, and
    otherwise the object holding the very buffer it was given. *)
Theorem extract_three_way (data : value) :
  exists accepted, isCertificate data = Normal accepted
    /\ result (extractCertificateFromData data)
       = Normal (if negb (Buffer.isBuffer data)
                 then ExtractError (Error (js "Data must be a Buffer"))
                 else if accepted then Extracted data else ExtractNull).
Proof. apply extract_three_way_aux. Qed.

(** X16: a buffer that [extractCertificateFromData] hands back goes past
    both guards of [wrapKeyWithCertificate]: with a key object the outcome
    is the certificate key around the decoded certificate, or the codec's
    error, never the not-a-buffer or not-a-certificate error. *)
Theorem extract_then_wrap (data found : value) (k : K) :
  result (extractCertificateFromData data) = Normal (Extracted found) ->
  found = data
  /\ exists r, parseSSHCertificate found = Normal r
       /\ result (wrapKeyWithCertificate (KObject k) found)
          = Normal match r with
                   | IsCert cert =>
                       Wrapped {| baseKey := k; certificate := cert;
                                  certBuffer := found;
                                  ck_type := key_type k;
                                  ck_comment := key_comment k |}
                   | IsError err => WrapError err
                   end.
Proof.
  intros Hextract.
  destruct (extract_three_way_aux data) as (accepted & Hs & Heq).
  rewrite Heq in Hextract.
  destruct (Buffer.isBuffer data) eqn:Hb; cbn [negb] in Hextract;
    [|discriminate].
  destruct accepted; [|discriminate]. injection Hextract as <-.
  split; [done|].
  destruct (parseSSHCertificate_returns data) as [[cert|err] Hp];
    eexists; (split; [exact Hp|]).
  - by rewrite (wrap_decoded _ _ cert).
  - by rewrite (wrap_decode_failure _ _ err).
Qed.

End AdapterMore.

Section Rewrap.

Context {World K : Type} `{!@BaseKey World K}.

Lemma wrapped_holds_key (key : keyref K) (certBuffer : value)
    (wrapper : CertificateKey) :
  result (wrapKeyWithCertificate key certBuffer) = Normal (Wrapped wrapper) ->
  key = KObject (baseKey wrapper).
Proof.
  intros Hwrap.
  destruct (wrap_cases key certBuffer)
    as [[_ Heq]|[(_ & _ & Heq)|[(err & _ & _ & _ & Heq)|(cert & _ & _ & _ & Heq)]]];
    rewrite Heq in Hwrap; try discriminate.
  unfold result in Hwrap. cbn [fst] in Hwrap.
  destruct key as [k| |]; cbn [new_CertificateKey] in Hwrap; try discriminate.
  by injection Hwrap as <-.
Qed.

End Rewrap.

(** X17: delegation composes.  A certificate key is itself a key object, and
    a certificate key wrapped around it passes [sign], [verify] and
    [isPrivateKey] through both layers to the innermost key; its
    [getPublicSSH] and [getPublicPEM] are the innermost key's when that key
    has them, and otherwise return undefined and leave the world as it is. *)
Theorem rewrap_delegates {World K : Type} `{!@BaseKey World K}
    (inner : @CertificateKey K) (certBuffer : value)
    (outer : @CertificateKey (@CertificateKey K)) :
  result (wrapKeyWithCertificate (KObject inner) certBuffer)
    = Normal (Wrapped outer) ->
  forall (data signature algo : value) (w : World),
    CertificateKey_sign outer data algo w = sign (baseKey inner) data algo w
    /\ CertificateKey_verify outer data signature algo w
       = verify (baseKey inner) data signature algo w
    /\ CertificateKey_isPrivateKey outer w = isPrivateKey (baseKey inner) w
    /\ CertificateKey_getPublicSSH outer algo w
       = match getPublicSSH (baseKey inner) with
         | Some method => method algo w
         | None => (Normal VUndefined, w)
         end
    /\ CertificateKey_getPublicPEM outer w
       = match getPublicPEM (baseKey inner) with
         | Some method => method w
         | None => (Normal VUndefined, w)
         end.
Proof.
  intros Hwrap data signature algo w.
  apply wrapped_holds_key in Hwrap. injection Hwrap as ->.
  unfold CertificateKey_sign, CertificateKey_verify, CertificateKey_isPrivateKey,
    CertificateKey_getPublicSSH, CertificateKey_getPublicPEM.
  cbn [sign verify isPrivateKey getPublicSSH getPublicPEM CertificateKey_BaseKey].
  unfold CertificateKey_getPublicSSH, CertificateKey_getPublicPEM.
  repeat split;
    [by destruct (getPublicSSH (baseKey (baseKey outer)))
    |by destruct (getPublicPEM (baseKey (baseKey outer)))].
Qed.

Lemma wrap_success_iff_witness :
  exists k cert,
    KObject () = KObject k
    /\ Buffer.isBuffer (VBuffer Examples.admin_root_wire) = true
    /\ isCertificate (VBuffer Examples.admin_root_wire) = Normal true
    /\ parseSSHCertificate (VBuffer Examples.admin_root_wire) = Normal (IsCert cert)
    /\ baseKey (mkCertificateKey () Examples.admin_root
                  (VBuffer Examples.admin_root_wire)
                  (VString (js "ssh-ed25519")) VUndefined) = k
    /\ getCertificate (mkCertificateKey () Examples.admin_root
                         (VBuffer Examples.admin_root_wire)
                         (VString (js "ssh-ed25519")) VUndefined) = cert
    /\ getCertificateBuffer (mkCertificateKey () Examples.admin_root
                               (VBuffer Examples.admin_root_wire)
                               (VString (js "ssh-ed25519")) VUndefined)
       = VBuffer Examples.admin_root_wire
    /\ ck_type (mkCertificateKey () Examples.admin_root
                  (VBuffer Examples.admin_root_wire)
                  (VString (js "ssh-ed25519")) VUndefined)
       = @key_type nat unit Examples.toy_key k
    /\ ck_comment (mkCertificateKey () Examples.admin_root
                     (VBuffer Examples.admin_root_wire)
                     (VString (js "ssh-ed25519")) VUndefined)
       = @key_comment nat unit Examples.toy_key k.
Proof.
  apply (@wrap_success_iff nat unit Examples.toy_key (KObject ())
           (VBuffer Examples.admin_root_wire)).
  vm_compute. reflexivity.
Defined.

Lemma wrap_without_key_witness :
  exists err,
    result (@wrapKeyWithCertificate nat unit Examples.toy_key KNull
              (VBuffer Examples.admin_root_wire))
    = Normal (WrapError err)
    /\ err_name err = js "TypeError".
Proof.
  apply (@wrap_without_key nat unit Examples.toy_key KNull
           (VBuffer Examples.admin_root_wire) Examples.admin_root);
    [by left | reflexivity | reflexivity | vm_compute; reflexivity].
Defined.

Lemma extract_then_wrap_witness :
  VBuffer Examples.identifier_only_cert = VBuffer Examples.identifier_only_cert
  /\ exists r,
       parseSSHCertificate (VBuffer Examples.identifier_only_cert) = Normal r
       /\ result (@wrapKeyWithCertificate nat unit Examples.toy_key (KObject ())
                    (VBuffer Examples.identifier_only_cert))
          = Normal match r with
                   | IsCert cert =>
                       Wrapped {| baseKey := (); certificate := cert;
                                  certBuffer := VBuffer Examples.identifier_only_cert;
                                  ck_type := @key_type nat unit Examples.toy_key ();
                                  ck_comment := @key_comment nat unit Examples.toy_key () |}
                   | IsError err => WrapError err
                   end.
Proof.
  apply (@extract_then_wrap nat unit Examples.toy_key
           (VBuffer Examples.identifier_only_cert)
           (VBuffer Examples.identifier_only_cert) ()).
  vm_compute. reflexivity.
Defined.

Lemma rewrap_delegates_witness :
  @CertificateKey_sign nat (@CertificateKey unit)
    (@CertificateKey_BaseKey nat unit Examples.toy_key)
    (mkCertificateKey
       (mkCertificateKey () Examples.admin_root (VBuffer Examples.admin_root_wire)
          (VString (js "ssh-ed25519")) VUndefined)
       Examples.admin_root (VBuffer Examples.admin_root_wire)
       (VString (js "ssh-ed25519")) VUndefined)
    (VString (js "data")) VUndefined 0%nat
  = (Normal (VString (js "data")), 1%nat).
Proof.
  assert (Hbuilt :
    result (@wrapKeyWithCertificate nat (@CertificateKey unit)
              (@CertificateKey_BaseKey nat unit Examples.toy_key)
              (KObject (mkCertificateKey () Examples.admin_root
                          (VBuffer Examples.admin_root_wire)
                          (VString (js "ssh-ed25519")) VUndefined))
              (VBuffer Examples.admin_root_wire))
    = Normal (Wrapped
                (mkCertificateKey
                   (mkCertificateKey () Examples.admin_root
                      (VBuffer Examples.admin_root_wire)
                      (VString (js "ssh-ed25519")) VUndefined)
                   Examples.admin_root (VBuffer Examples.admin_root_wire)
                   (VString (js "ssh-ed25519")) VUndefined)))
    by (vm_compute; reflexivity).
  exact (proj1 (@rewrap_delegates nat unit Examples.toy_key _ _ _ Hbuilt
                  (VString (js "data")) VUndefined VUndefined 0%nat)).
Defined.
